(** * albumentations/core/utils.py: a shallow embedding

    The module holds three things: [get_shape], the abstract [DataProcessor]
    that packs label columns into annotation records before a transform and
    unpacks them afterwards, and [to_tuple], which expands a scalar or a pair
    into a range.

    Python values are embedded as the inductive types below; a Python [dict]
    with string keys is a [gmap string _]; an exception is a value of [exn];
    a function that may raise returns a [result]; a function that mutates the
    caller's dictionary and may raise half-way returns an [outcome], which
    keeps the dictionary as the exception found it. *)

From stdpp Require Import gmap strings list fin_maps pretty.

Open Scope string_scope.
Open Scope list_scope.
Set Warnings "-register-all".

(** ** Exceptions and results *)

Inductive exn :=
| ValueError (msg : string)
| RuntimeError (msg : string)
| KeyError (key : string)
| TypeError
| IndexError.

Inductive result (A : Type) :=
| Ok (a : A)
| Err (e : exn).
Arguments Ok {A} a.
Arguments Err {A} e.

#[global] Instance result_ret : MRet result := λ A a, Ok a.
#[global] Instance result_bind : MBind result :=
  λ A B f m, match m with Ok a => f a | Err e => Err e end.

(** ** [to_tuple]

    The values [to_tuple] is called with: [None], a scalar, a string, or a
    list/tuple.  Scalars are Python [int]s (unbounded, so [Z]); [float]
    arguments are outside this model.  A string is kept because it is the
    specification's example of a wrong argument, and because Python counts a
    [str] as a [Sequence] whose items are its one-character substrings. *)

Inductive item :=
| IInt (z : Z)
| IStr (s : string).

Inductive arg :=
| ANone
| AItem (x : item)
| ASeq (xs : list item).

(** Modelled from the spec: the constant [PAIR] is imported from
    [albumentations/core/types.py], which is not among the sources; the
    specification speaks of a "2-element" sequence. *)
Definition PAIR : nat := 2.

Definition is_not_None (a : arg) : bool :=
  match a with ANone => false | _ => true end.

Fixpoint chars (s : string) : list item :=
  match s with
  | EmptyString => []
  | String c s' => IStr (String c EmptyString) :: chars s'
  end.

(** [isinstance(param, Sequence)], with the items when it holds. *)
Definition as_Sequence (a : arg) : option (list item) :=
  match a with
  | ASeq xs => Some xs
  | AItem (IStr s) => Some (chars s)
  | _ => None
  end.

(** [a < b]: defined between two ints and between two strings. *)
Definition item_lt (a b : item) : result bool :=
  match a, b with
  | IInt x, IInt y => Ok (x <? y)%Z
  | IStr s, IStr t => Ok (String.ltb s t)
  | _, _ => Err TypeError
  end.

(** The builtins [min] and [max] over an iterable: keep the first item and
    replace it by a later one that is strictly smaller (larger). *)
Fixpoint min_from (cur : item) (rest : list item) : result item :=
  match rest with
  | [] => Ok cur
  | x :: rest' => b ← item_lt x cur; min_from (if b : bool then x else cur) rest'
  end.

Fixpoint max_from (cur : item) (rest : list item) : result item :=
  match rest with
  | [] => Ok cur
  | x :: rest' => b ← item_lt cur x; max_from (if b : bool then x else cur) rest'
  end.

Definition py_min (xs : list item) : result item :=
  match xs with
  | [] => Err (ValueError "min() arg is an empty sequence")
  | x :: rest => min_from x rest
  end.

Definition py_max (xs : list item) : result item :=
  match xs with
  | [] => Err (ValueError "max() arg is an empty sequence")
  | x :: rest => max_from x rest
  end.

(** [bias + x] *)
Definition py_add (bias : arg) (x : item) : result item :=
  match bias, x with
  | AItem (IInt b), IInt z => Ok (IInt (b + z))
  | AItem (IStr b), IStr s => Ok (IStr (b +:+ s))
  | _, _ => Err TypeError
  end.

Definition low_and_bias_msg : string :=
  "Arguments 'low' and 'bias' cannot be used together.".

Definition bad_param_msg : string :=
  "Argument 'param' must be either a scalar or a sequence of 2 elements.".

(** The [if]/[elif]/[else] that derives [(min_val, max_val)]. *)
Definition derive_min_max (param low : arg) : result (item * item) :=
  match as_Sequence param with
  | Some xs =>
      if decide (length xs = PAIR) then
        min_val ← py_min xs; max_val ← py_max xs; mret (min_val, max_val)
      else Err (ValueError bad_param_msg)
  | None =>
      match param with
      | AItem (IInt p) =>
          match low with
          | AItem (IInt l) =>
              mret (if (l <? p)%Z then (IInt l, IInt p) else (IInt p, IInt l))
          | _ => mret (IInt (- p), IInt p)
          end
      | _ => Err (ValueError bad_param_msg)
      end
  end.

Definition to_tuple (param low bias : arg) : result (item * item) :=
  if is_not_None low && is_not_None bias then Err (ValueError low_and_bias_msg)
  else
    mm ← derive_min_max param low;
    match bias with
    | ANone => mret mm
    | _ => lo ← py_add bias mm.1; hi ← py_add bias mm.2; mret (lo, hi)
    end.

(** The order a "(min, max) pair" is judged by. *)
Definition item_le (a b : item) : Prop :=
  match a, b with
  | IInt x, IInt y => (x ≤ y)%Z
  | IStr s, IStr t => String.leb s t = true
  | _, _ => False
  end.

(** ** The values a sample holds

    [PList] is a Python list and [PTuple] a tuple; [PArray] and [PTensor]
    stand for a [numpy.ndarray] and a [torch.Tensor], known by their shape
    only; [PObj cls id] is an object of any other class ([None], a float, an
    instance of a user's class), known by the name [cls] that [type] prints
    for its class and by a number [id] that tells objects apart: such an
    object has no length and can be neither iterated nor indexed. *)

Inductive pyval :=
| PInt (z : Z)
| PStr (s : string)
| PList (xs : list pyval)
| PTuple (xs : list pyval)
| PArray (shape : list nat)
| PTensor (shape : list nat)
| PObj (cls : string) (id : Z).

#[global] Instance pyval_inhabited : Inhabited pyval := populate (PInt 0).

(** [str(type(v))] *)
Definition type_repr (v : pyval) : string :=
  match v with
  | PInt _ => "<class 'int'>"
  | PStr _ => "<class 'str'>"
  | PList _ => "<class 'list'>"
  | PTuple _ => "<class 'tuple'>"
  | PArray _ => "<class 'numpy.ndarray'>"
  | PTensor _ => "<class 'torch.Tensor'>"
  | PObj cls _ => "<class '" +:+ cls +:+ "'>"
  end.

Definition unsupported_image_msg (v : pyval) : string :=
  "Albumentations supports only numpy.ndarray and torch.Tensor data type for image. Got: "
  +:+ type_repr v.

(** [get_shape].  A [PTensor] can only be built where [torch] is importable,
    so the handler of [ImportError] is reached by values that are not
    tensors, and those end in the same [RuntimeError] as when the import
    succeeds and [torch.is_tensor] says no. *)
Definition get_shape (img : pyval) : result (list nat) :=
  match img with
  | PArray shape => Ok (take 2 shape)
  | PTensor shape => Ok (drop (length shape - 2) shape)
  | _ => Err (RuntimeError (unsupported_image_msg img))
  end.

(** [len(v)] *)
Definition py_len (v : pyval) : result nat :=
  match v with
  | PStr s => Ok (String.length s)
  | PList xs | PTuple xs => Ok (length xs)
  | PArray (n :: _) | PTensor (n :: _) => Ok n
  | _ => Err TypeError
  end.

Fixpoint str_items (s : string) : list pyval :=
  match s with
  | EmptyString => []
  | String c s' => PStr (String c EmptyString) :: str_items s'
  end.

(** The items iteration over [v] yields ([zip], [list(d)], a comprehension).
    An array yields its sub-arrays, one dimension fewer. *)
Definition py_iter (v : pyval) : result (list pyval) :=
  match v with
  | PStr s => Ok (str_items s)
  | PList xs | PTuple xs => Ok xs
  | PArray (n :: shape) => Ok (replicate n (PArray shape))
  | PTensor (n :: shape) => Ok (replicate n (PTensor shape))
  | _ => Err TypeError
  end.

(** Python's index normalisation: a negative index counts from the end. *)
Definition norm_index (len : nat) (i : Z) : option nat :=
  let j := (if (i <? 0)%Z then i + Z.of_nat len else i)%Z in
  if ((0 <=? j) && (j <? Z.of_nat len))%Z then Some (Z.to_nat j) else None.

(** The bound of the slice [v[:stop]], clipped to [0 .. len]. *)
Definition norm_stop (len : nat) (stop : Z) : nat :=
  Z.to_nat (if (stop <? 0)%Z then Z.max (stop + Z.of_nat len) 0
            else Z.min stop (Z.of_nat len)).

(** [v[i]] *)
Definition py_index (v : pyval) (i : Z) : result pyval :=
  match v with
  | PInt _ | PObj _ _ => Err TypeError
  | PStr s =>
      match norm_index (String.length s) i with
      | Some j => Ok (PStr (String.substring j 1 s))
      | None => Err IndexError
      end
  | PList xs | PTuple xs =>
      match norm_index (length xs) i with
      | Some j => match xs !! j with Some x => Ok x | None => Err IndexError end
      | None => Err IndexError
      end
  | PArray [] | PTensor [] => Err IndexError
  | PArray (n :: shape) =>
      match norm_index n i with Some _ => Ok (PArray shape) | None => Err IndexError end
  | PTensor (n :: shape) =>
      match norm_index n i with Some _ => Ok (PTensor shape) | None => Err IndexError end
  end.

(** [v[:stop]] *)
Definition py_slice_to (v : pyval) (stop : Z) : result pyval :=
  match v with
  | PInt _ | PObj _ _ => Err TypeError
  | PStr s => Ok (PStr (String.substring 0 (norm_stop (String.length s) stop) s))
  | PList xs => Ok (PList (take (norm_stop (length xs) stop) xs))
  | PTuple xs => Ok (PTuple (take (norm_stop (length xs) stop) xs))
  | PArray [] | PTensor [] => Err IndexError
  | PArray (n :: shape) => Ok (PArray (norm_stop n stop :: shape))
  | PTensor (n :: shape) => Ok (PTensor (norm_stop n stop :: shape))
  end.

(** ** Samples, and statements that mutate them *)

Abbreviation sample := (gmap string pyval).

(** [data[key]] *)
Definition py_getitem (data : sample) (key : string) : result pyval :=
  match data !! key with
  | Some v => Ok v
  | None => Err (KeyError key)
  end.

(** How a call that mutates the caller's dictionary ends: it returns, or an
    exception leaves it, and either way the dictionary is in some state. *)
Inductive outcome :=
| Returned (data : sample)
| Raised (e : exn) (data : sample).

Definition stmt := sample → outcome.

Definition final_sample (o : outcome) : sample :=
  match o with Returned data | Raised _ data => data end.

(** [data[key] = rhs]: the right-hand side is evaluated first; when it raises
    nothing is stored. *)
Definition assign (key : string) (rhs : sample → result pyval) : stmt :=
  λ data, match rhs data with
          | Ok v => Returned (<[key := v]> data)
          | Err e => Raised e data
          end.

(** [s1; s2] *)
Definition seq_stmt (s1 s2 : stmt) : stmt :=
  λ data, match s1 data with
          | Returned data' => s2 data'
          | Raised e data' => Raised e data'
          end.

(** [if key in data: s] *)
Definition if_in (key : string) (s : stmt) : stmt :=
  λ data, if decide (is_Some (data !! key)) then s data else Returned data.

(** [for x in xs: body x] *)
Fixpoint for_each {A : Type} (xs : list A) (body : A → stmt) : stmt :=
  match xs with
  | [] => Returned
  | x :: xs' => seq_stmt (body x) (for_each xs' body)
  end.

Fixpoint enumerate_from {A : Type} (i : nat) (xs : list A) : list (nat * A) :=
  match xs with
  | [] => []
  | x :: xs' => (i, x) :: enumerate_from (S i) xs'
  end.

(** [enumerate(xs)] *)
Definition enumerate {A : Type} (xs : list A) : list (nat * A) := enumerate_from 0 xs.

(** ** [Params] and [DataProcessor] *)

Record Params := {
  format : string;
  label_fields : option (list string);
}.

(** The abstract members a concrete processor overrides.  Each may raise. *)
Class DataProcessorImpl := {
  default_data_name : string;
  filter : pyval → list nat → result pyval;
  check : pyval → list nat → result ();
  convert_to_albumentations : pyval → list nat → result pyval;
  convert_from_albumentations : pyval → list nat → result pyval;
}.

(** The attributes [__init__] sets. *)
Record DataProcessor := {
  params : Params;
  data_fields : list string;
}.

Definition lengths_msg (n m : nat) : string :=
  "The lengths of bboxes and labels do not match. Got " +:+ pretty n
  +:+ " and " +:+ pretty m +:+ " respectively.".

Definition invalid_direction_msg (direction : string) : string :=
  "Invalid direction. Must be `to` or `from`. Got `" +:+ direction +:+ "`".

Section data_processor.
Context `{Impl : DataProcessorImpl}.

(** [add_targets] mutates [self.data_fields]; the result is [self] after
    the call.  The mapping is given by its items, in iteration order. *)
Fixpoint add_targets (self : DataProcessor)
    (additional_targets : list (string * string)) : DataProcessor :=
  match additional_targets with
  | [] => self
  | (k, v) :: rest =>
      if decide (v = default_data_name ∧ k ∉ data_fields self) then
        add_targets
          {| params := params self; data_fields := data_fields self ++ [k] |} rest
      else add_targets self rest
  end.

(** [__init__] *)
Definition init (params : Params)
    (additional_targets : option (list (string * string))) : DataProcessor :=
  let self := {| params := params; data_fields := [default_data_name] |} in
  match additional_targets with
  | Some targets => add_targets self targets
  | None => self
  end.

Definition check_and_convert (self : DataProcessor) (data : pyval)
    (image_shape : list nat) (direction : string) : result pyval :=
  if decide (format (params self) = "albumentations") then
    _ ← check data image_shape; mret data
  else if decide (direction = "to") then
    convert_to_albumentations data image_shape
  else if decide (direction = "from") then
    convert_from_albumentations data image_shape
  else Err (ValueError (invalid_direction_msg direction)).

(** The body of the innermost loop of [add_label_fields_to_data]: compare
    the two lengths, then rebuild the stream with one more value per
    record. *)
Definition add_field (data_name field : string) : stmt :=
  assign data_name (λ data,
    stream ← py_getitem data data_name;
    n ← py_len stream;
    column ← py_getitem data field;
    m ← py_len column;
    if decide (n = m) then
      ds ← py_iter stream;
      field_values ← py_iter column;
      data_with_added_field ←
        mapM (λ p, items ← py_iter p.1; mret (PList (items ++ [p.2])))
             (zip ds field_values);
      mret (PList data_with_added_field)
    else Err (ValueError (lengths_msg n m))).

Definition add_label_fields_to_data (self : DataProcessor) : stmt :=
  match label_fields (params self) with
  | None => Returned
  | Some fields =>
      for_each (data_fields self) (λ data_name,
        if_in data_name (for_each fields (λ field, add_field data_name field)))
  end.

(** [data[field] = [bbox[-label_fields_len + idx] for bbox in data[data_name]]] *)
Definition take_field (data_name : string) (label_fields_len : nat)
    (idx : nat) (field : string) : stmt :=
  assign field (λ data,
    stream ← py_getitem data data_name;
    bboxes ← py_iter stream;
    column ← mapM (λ bbox, py_index bbox (- Z.of_nat label_fields_len + Z.of_nat idx))
                  bboxes;
    mret (PList column)).

(** [data[data_name] = [d[:-label_fields_len] for d in data[data_name]]] *)
Definition strip_fields (data_name : string) (label_fields_len : nat) : stmt :=
  assign data_name (λ data,
    stream ← py_getitem data data_name;
    ds ← py_iter stream;
    stripped ← mapM (λ d, py_slice_to d (- Z.of_nat label_fields_len)) ds;
    mret (PList stripped)).

Definition remove_label_fields_from_data (self : DataProcessor) : stmt :=
  match label_fields (params self) with
  | None | Some [] => Returned
  | Some fields =>
      let label_fields_len := length fields in
      for_each (data_fields self) (λ data_name,
        if_in data_name
          (seq_stmt
             (for_each (enumerate fields) (λ p,
                take_field data_name label_fields_len p.1 p.2))
             (strip_fields data_name label_fields_len)))
  end.

(** [image_shape = get_shape(data["image"])], then the rest. *)
Definition with_image_shape (k : list nat → stmt) : stmt :=
  λ data, match (img ← py_getitem data "image"; get_shape img) with
          | Ok image_shape => k image_shape data
          | Err e => Raised e data
          end.

(** [preprocess] returns [None]; its effect is on the caller's dictionary. *)
Definition preprocess (self : DataProcessor) : stmt :=
  seq_stmt (add_label_fields_to_data self)
    (with_image_shape (λ image_shape,
       for_each (data_fields self) (λ data_name,
         if_in data_name
           (assign data_name (λ data,
              stream ← py_getitem data data_name;
              check_and_convert self stream image_shape "to"))))).

(** [postprocess] returns the dictionary it was given, mutated. *)
Definition postprocess (self : DataProcessor) : stmt :=
  with_image_shape (λ image_shape,
    seq_stmt
      (for_each (data_fields self) (λ data_name,
         if_in data_name
           (seq_stmt
              (assign data_name (λ data,
                 stream ← py_getitem data data_name;
                 filter stream image_shape))
              (assign data_name (λ data,
                 stream ← py_getitem data data_name;
                 check_and_convert self stream image_shape "from")))))
      (remove_label_fields_from_data self)).

End data_processor.

(** ** A concrete processor, to run the functions on examples

    A stand-in for a subclass such as the one for bounding boxes: [filter]
    drops the records whose first coordinate is a negative number, [check]
    refuses a stream that holds something other than lists, and the two
    conversions shift the first coordinate by the image height. *)

Definition in_frame (r : pyval) : bool :=
  match r with
  | PList (PInt z :: _) => (0 <=? z)%Z
  | _ => true
  end.

Definition is_PList (v : pyval) : bool :=
  match v with PList _ => true | _ => false end.

Definition shift_first (dz : Z) (r : pyval) : pyval :=
  match r with
  | PList (PInt z :: rest) => PList (PInt (z + dz) :: rest)
  | _ => r
  end.

Definition height (image_shape : list nat) : Z :=
  Z.of_nat (default 0%nat (head image_shape)).

#[local] Instance demo_impl : DataProcessorImpl := {|
  default_data_name := "bboxes";
  filter data image_shape :=
    rows ← py_iter data; mret (PList (List.filter in_frame rows));
  check data image_shape :=
    rows ← py_iter data;
    if forallb is_PList rows then mret () else Err (ValueError "not a record");
  convert_to_albumentations data image_shape :=
    rows ← py_iter data; mret (PList (shift_first (height image_shape) <$> rows));
  convert_from_albumentations data image_shape :=
    rows ← py_iter data; mret (PList (shift_first (- height image_shape) <$> rows));
|}.

Definition canonical_params (fields : option (list string)) : Params :=
  {| format := "albumentations"; label_fields := fields |}.

Definition ints (zs : list Z) : pyval := PList (PInt <$> zs).

(** ** [format_args]

    The mapping is given by its items, in iteration order; its values are
    ints and strings here, the two kinds whose [str] needs no [repr] of
    nested values. *)

(** [str(v)] *)
Definition py_str (v : item) : string :=
  match v with
  | IInt z => pretty z
  | IStr s => s
  end.

(** [sep.join(parts)] *)
Fixpoint join (sep : string) (parts : list string) : string :=
  match parts with
  | [] => ""
  | x :: rest =>
      match rest with
      | [] => x
      | _ :: _ => x +:+ sep +:+ join sep rest
      end
  end.

(** The string one entry of the mapping is turned into. *)
Definition format_arg (kv : string * item) : string :=
  let v_formatted :=
    match kv.2 with
    | IStr s => "'" +:+ s +:+ "'"
    | v => py_str v
    end in
  kv.1 +:+ "=" +:+ v_formatted.

Definition format_args (args_dict : list (string * item)) : string :=
  join ", " (format_arg <$> args_dict).

(** * Vocabulary of the properties

    Pure descriptions of what the loops build, used to state and prove the
    properties below, and the samples the theorems are run on. *)

(** [isinstance(a, (int, float))], for the scalars of this model. *)
Definition is_scalar (a : arg) : bool :=
  match a with AItem (IInt _) => true | _ => false end.

(** [isinstance(a, Sequence) and len(a) == PAIR] *)
Definition is_pair (a : arg) : bool :=
  match as_Sequence a with
  | Some xs => bool_decide (length xs = PAIR)
  | None => false
  end.

(** The entries of a mapping that [add_targets] takes up. *)
Definition accepted `{Impl : DataProcessorImpl} (self : DataProcessor)
    (p : string * string) : bool :=
  bool_decide (p.2 = default_data_name ∧ p.1 ∉ data_fields self).

(** A stream as the annotation says it is: a list of records, each a list. *)
Definition stream_of (recs : list (list pyval)) : pyval := PList (PList <$> recs).

(** One more label per record: what a pass of the innermost loop of
    [add_label_fields_to_data] builds. *)
Definition add_column (recs : list (list pyval)) (col : list pyval) :
    list (list pyval) :=
  zip_with (λ r v, r ++ [v]) recs col.

(** All passes of that loop, one per label column. *)
Definition add_columns (recs : list (list pyval)) (cols : list (list pyval)) :
    list (list pyval) :=
  foldl add_column recs cols.

(** The label column a sample holds under [field] (empty when it holds none). *)
Definition column (data : sample) (field : string) : list pyval :=
  match data !! field with
  | Some (PList col) => col
  | _ => []
  end.

(** The value [bbox[-k + idx]] of a record with at least [k] items. *)
Definition label_at (k idx : nat) (r : list pyval) : pyval :=
  r !!! (length r - k + idx)%nat.

(** The record [d[:-k]], for [k] at least one. *)
Definition without_labels (k : nat) (r : list pyval) : list pyval :=
  take (length r - k) r.

(** The items of a list value. *)
Definition items (v : pyval) : list pyval :=
  match v with PList xs => xs | _ => [] end.

(** The records of a stream of list records. *)
Definition records (v : pyval) : list (list pyval) := items <$> items v.

(** The stream [v] with the label columns of [data] packed into its records. *)
Definition packed (fields : list string) (data : sample) (v : pyval) : pyval :=
  stream_of (add_columns (records v) (column data <$> fields)).

(** Every stream of [dns] in the sample is a list of list records, and every
    label column is a list with one entry per record. *)
Definition columns_match (dns fields : list string) (data : sample) : Prop :=
  ∀ dn v, dn ∈ dns → data !! dn = Some v →
    ∃ recs, v = stream_of recs ∧
      Forall (λ f, ∃ col, data !! f = Some (PList col) ∧ length col = length recs)
             fields.

(** The sample after the label columns of [rows] are stored under the
    enumerated field names, one after the other. *)
Definition unpacked (k : nat) (rows : list (list pyval)) (data : sample)
    (ps : list (nat * string)) : sample :=
  foldl (λ d p, <[p.2 := PList (label_at k p.1 <$> rows)]> d) data ps.

(** The stream [v] with the last [k] items of every record cut off. *)
Definition stripped (k : nat) (v : pyval) : pyval :=
  stream_of (without_labels k <$> records v).

(** Every stream of [dns] in the sample holds records with the sample's
    label columns packed at their end. *)
Definition packed_state (dns fields : list string) (data : sample) : Prop :=
  ∀ dn v, dn ∈ dns → data !! dn = Some v →
    ∃ recs, v = stream_of (add_columns recs (column data <$> fields)) ∧
      Forall (λ f, ∃ col, data !! f = Some (PList col) ∧ length col = length recs)
             fields.

(** The items of a list or of a tuple. *)
Definition seq_items (v : pyval) : option (list pyval) :=
  match v with
  | PList xs | PTuple xs => Some xs
  | _ => None
  end.

(** The same, with no items for a value that is neither. *)
Definition entries (v : pyval) : list pyval := default [] (seq_items v).

(** The records of a stream of lists or tuples, each by its items. *)
Definition seq_rows (v : pyval) : list (list pyval) := entries <$> entries v.

(** The entries of the label column a sample holds under [field]. *)
Definition labels_of (data : sample) (field : string) : list pyval :=
  from_option entries [] (data !! field).

(** What the passes of [add_label_fields_to_data] over [fields] make of the
    stream [v]: with no label field it is left as it is; otherwise it is
    rebuilt as a list of lists, the items of each record followed by the
    record's entry of each label column, in the order of [fields]. *)
Definition repacked (fields : list string) (data : sample) (v : pyval) : pyval :=
  match fields with
  | [] => v
  | _ => stream_of (add_columns (seq_rows v) (labels_of data <$> fields))
  end.

(** What packing and unpacking the labels leave of the stream [v]: with no
    label field the stream itself; otherwise a list of lists that holds the
    items of each record, in order. *)
Definition relisted (fields : list string) (v : pyval) : pyval :=
  match fields with
  | [] => v
  | _ => stream_of (seq_rows v)
  end.

(** The value is a list or tuple of records, each a list or a tuple. *)
Definition is_stream (v : pyval) : Prop :=
  ∃ ds, seq_items v = Some ds ∧ Forall (λ d, is_Some (seq_items d)) ds.

(** The sample holds a list or a tuple under [field]. *)
Definition is_column (data : sample) (field : string) : Prop :=
  ∃ c, data !! field = Some c ∧ is_Some (seq_items c).

(** The label column under [field] has one entry per record of [v]. *)
Definition fits (data : sample) (v : pyval) (field : string) : Prop :=
  length (labels_of data field) = length (entries v).

#[global] Instance fits_dec (data : sample) (v : pyval) (field : string) :
  Decision (fits data v field) :=
  decide (length (labels_of data field) = length (entries v)).

(** Every stream of [dns] in the sample is a list or tuple of records, each a
    list or a tuple, and every label column is a list or a tuple with one
    entry per record. *)
Definition sequences_match (dns fields : list string) (data : sample) : Prop :=
  ∀ dn v, dn ∈ dns → data !! dn = Some v →
    is_stream v ∧ Forall (λ f, is_column data f ∧ fits data v f) fields.

(** The samples and processors the theorems are run on: an image of 100 by
    200 pixels, a processor with two label fields, and one with an alias. *)
Definition array_image : pyval := PArray [100; 200; 3]%nat.

Definition labelled_processor : DataProcessor :=
  init (canonical_params (Some ["labels"; "scores"])) None.

Definition two_boxes : pyval :=
  PList [ints [1; 2; 3; 4]%Z; ints [5; 6; 7; 8]%Z].

(** Two boxes, and two columns with one entry per box. *)
Definition matching_sample : sample :=
  {[ "image" := array_image;
     "bboxes" := two_boxes;
     "labels" := PList [PStr "a"; PStr "b"];
     "scores" := ints [9; 8]%Z ]}.

(** The column "scores" has one entry, the stream has two records. *)
Definition short_scores_sample : sample :=
  {[ "image" := array_image;
     "bboxes" := two_boxes;
     "labels" := PList [PStr "a"; PStr "b"];
     "scores" := ints [9]%Z ]}.




(** What a statement leaves alone: every key outside [keys] holds after it,
    returned or raised, what it held before. *)
Definition writes_only (keys : string → Prop) (s : stmt) : Prop :=
  ∀ data key, ¬ keys key → final_sample (s data) !! key = data !! key.

(** The statement neither adds nor removes a key. *)
Definition same_keys (s : stmt) : Prop :=
  ∀ data, dom (final_sample (s data)) = dom data.

(** The statement neither adds nor removes a key when [key] is in the
    sample. *)
Definition same_keys_if_in (key : string) (s : stmt) : Prop :=
  ∀ data, is_Some (data !! key) → dom (final_sample (s data)) = dom data.

(** The statement removes no key. *)
Definition keeps_keys (s : stmt) : Prop :=
  ∀ data, dom data ⊆ dom (final_sample (s data)).

(** A processor for a format that is not the canonical one. *)
Definition shifting_processor : DataProcessor :=
  init {| format := "shifted"; label_fields := Some ["labels"] |}
       (Some [("more", "bboxes")]).

(** Two streams holding the same boxes, and one label column. *)
Definition twin_sample : sample :=
  {[ "image" := array_image;
     "bboxes" := two_boxes;
     "more" := two_boxes;
     "labels" := PList [PStr "a"; PStr "b"] ]}.

(** Two boxes given as tuples, a tuple of labels and a list of scores. *)
Definition tuple_sample : sample :=
  {[ "image" := array_image;
     "bboxes" := PList [PTuple (PInt <$> [1; 2; 3; 4]%Z);
                        PTuple (PInt <$> [5; 6; 7; 8]%Z)];
     "labels" := PTuple [PStr "a"; PStr "b"];
     "scores" := ints [9; 8]%Z ]}.

(** A sample without an image. *)
Definition blind_sample : sample :=
  {[ "bboxes" := two_boxes;
     "labels" := PList [PStr "a"; PStr "b"];
     "scores" := ints [9; 8]%Z ]}.

(** A sample whose second record is too short to hold two labels. *)
Definition short_record_sample : sample :=
  {[ "image" := array_image;
     "bboxes" := PList [ints [1; 2; 3]%Z; ints [5]%Z] ]}.

(** * Properties *)

(** ** The result monad *)

Lemma result_bind_Ok {A B : Type} (m : result A) (f : A → result B) (b : B) :
  m ≫= f = Ok b → ∃ a, m = Ok a ∧ f a = Ok b.
Proof. destruct m as [a|e]; [by exists a|discriminate]. Qed.

Lemma result_ret_Ok {A : Type} (a : A) : mret a = Ok a.
Proof. done. Qed.

(** Turns [mret a = Ok b] and [Ok a = Ok b] in the context into equations
    between the values, and substitutes them. *)
Ltac inv_result :=
  repeat match goal with
         | H : mret _ = Ok _ |- _ => rewrite result_ret_Ok in H
         | H : Ok _ = Ok _ |- _ => injection H as H
         | H : (_, _) = (_, _) |- _ => injection H as ? ?
         | H : Err _ = Ok _ |- _ => discriminate H
         | H : Ok _ = Err _ |- _ => discriminate H
         end; simplify_eq.

(** ** [to_tuple] *)

Lemma string_compare_refl (s : string) : String.compare s s = Eq.
Proof.
  pose proof (String.compare_antisym s s) as H.
  destruct (String.compare s s); simpl in H; congruence.
Qed.

Lemma ascii_compare_refl (c : Ascii.ascii) : Ascii.compare c c = Eq.
Proof.
  pose proof (Ascii.compare_antisym c c) as H.
  destruct (Ascii.compare c c); simpl in H; congruence.
Qed.

Lemma string_compare_app (b s t : string) :
  String.compare (b +:+ s) (b +:+ t) = String.compare s t.
Proof.
  induction b as [|c b IH]; simpl; [done|].
  by rewrite ascii_compare_refl.
Qed.

Lemma item_le_refl (a : item) : item_le a a.
Proof.
  destruct a as [z|s]; simpl; [lia|].
  unfold String.leb. by rewrite string_compare_refl.
Qed.

Lemma item_lt_le (a b : item) : item_lt a b = Ok true → item_le a b.
Proof.
  destruct a as [x|s], b as [y|t]; simpl; try discriminate.
  - intros [= H]. lia.
  - intros [= H]. unfold String.ltb in H. unfold String.leb.
    by destruct (String.compare s t).
Qed.

Lemma py_add_mono (bias : arg) (a b a' b' : item) :
  item_le a b → py_add bias a = Ok a' → py_add bias b = Ok b' → item_le a' b'.
Proof.
  destruct bias as [|[z|s]|xs]; try discriminate;
    destruct a as [x|u], b as [y|v]; simpl; try discriminate; try tauto.
  - intros H [= <-] [= <-]. simpl. lia.
  - intros H [= <-] [= <-]. simpl. unfold String.leb in *.
    by rewrite string_compare_app.
Qed.

(** A successful derivation from a sequence of two items is ordered. *)
Lemma derive_pair_ordered (x y : item) (mn mx : item) :
  (min_val ← py_min [x; y]; max_val ← py_max [x; y]; mret (min_val, max_val))
    = Ok (mn, mx) →
  item_le mn mx.
Proof.
  simpl. destruct (item_lt y x) as [[]|] eqn:Hyx; simpl; try discriminate;
    destruct (item_lt x y) as [[]|] eqn:Hxy; simpl; try discriminate;
    intros [= <- <-]; auto using item_le_refl, item_lt_le.
Qed.

(** C6: the six input/output examples of the specification:
    [to_tuple(5) = (-5, 5)], [to_tuple(5, low=2) = (2, 5)],
    [to_tuple((3, 1)) = (1, 3)], [to_tuple(4, bias=10) = (6, 14)], and
    [to_tuple(5, low=2, bias=1)] and [to_tuple("x")] raise [ValueError]. *)
Theorem to_tuple_examples :
  to_tuple (AItem (IInt 5)) ANone ANone = Ok (IInt (-5), IInt 5) ∧
  to_tuple (AItem (IInt 5)) (AItem (IInt 2)) ANone = Ok (IInt 2, IInt 5) ∧
  to_tuple (ASeq [IInt 3; IInt 1]) ANone ANone = Ok (IInt 1, IInt 3) ∧
  to_tuple (AItem (IInt 4)) ANone (AItem (IInt 10)) = Ok (IInt 6, IInt 14) ∧
  to_tuple (AItem (IInt 5)) (AItem (IInt 2)) (AItem (IInt 1))
    = Err (ValueError low_and_bias_msg) ∧
  to_tuple (AItem (IStr "x")) ANone ANone = Err (ValueError bad_param_msg).
Proof. repeat split. Qed.

(** C7: the code at [to_tuple(-5)].  The docstring promises a min-max tuple
    and the claim a pair whose first element is at most its second; the
    branch for a scalar without [low] returns [(-param, param)] as it is, so
    [to_tuple(-5)] is [(5, -5)], first element the larger one.  The two
    sibling branches order what they return: the pair [(5, -5)] and the
    scalar [-5] with [low=5] both give [(-5, 5)]. *)
Theorem to_tuple_negative_scalar :
  to_tuple (AItem (IInt (-5))) ANone ANone = Ok (IInt 5, IInt (-5)) ∧
  ¬ item_le (IInt 5) (IInt (-5)) ∧
  to_tuple (ASeq [IInt 5; IInt (-5)]) ANone ANone = Ok (IInt (-5), IInt 5) ∧
  to_tuple (AItem (IInt (-5))) (AItem (IInt 5)) ANone = Ok (IInt (-5), IInt 5) ∧
  (∀ s : Z, to_tuple (AItem (IInt s)) ANone ANone = Ok (IInt (- s), IInt s)).
Proof.
  split_and!; try done.
  simpl. lia.
Qed.

(** C8: when [low] and [bias] are both given, [to_tuple] raises the
    invalid-argument error for every [param], valid or not, before anything
    is derived from it; and when [param] is neither a scalar nor a sequence
    of two items it raises an invalid-argument error. *)
Theorem to_tuple_invalid_arguments (param low bias : arg) :
  (is_not_None low = true → is_not_None bias = true →
     to_tuple param low bias = Err (ValueError low_and_bias_msg)) ∧
  (is_scalar param = false → is_pair param = false →
     to_tuple param low bias =
       Err (ValueError (if is_not_None low && is_not_None bias
                        then low_and_bias_msg else bad_param_msg))).
Proof.
  split.
  - intros Hl Hb. unfold to_tuple. by rewrite Hl, Hb.
  - intros Hs Hp. unfold to_tuple.
    destruct (is_not_None low && is_not_None bias); [done|].
    unfold derive_min_max, is_pair in *.
    destruct (as_Sequence param) as [xs|] eqn:Hseq.
    + apply bool_decide_eq_false in Hp. by rewrite decide_False.
    + by destruct param as [|[s|s]|xs].
Qed.

Lemma to_tuple_invalid_arguments_witness :
  to_tuple (ASeq [IStr "a"; IInt 1]) (AItem (IInt 2)) (AItem (IInt 1))
    = Err (ValueError low_and_bias_msg) ∧
  to_tuple (ASeq [IInt 1; IInt 2; IInt 3]) ANone (AItem (IInt 1))
    = Err (ValueError bad_param_msg).
Proof.
  split.
  - exact (proj1 (to_tuple_invalid_arguments (ASeq [IStr "a"; IInt 1])
                    (AItem (IInt 2)) (AItem (IInt 1))) eq_refl eq_refl).
  - exact (proj2 (to_tuple_invalid_arguments (ASeq [IInt 1; IInt 2; IInt 3])
                    ANone (AItem (IInt 1))) eq_refl eq_refl).
Defined.

(** ** [get_shape] *)

(** C9: [get_shape] returns the first two dimensions of a numpy array,
    [(height, width)] when it has at least two, and the last two dimensions
    of a torch tensor; for a value of any other type (an int, a string, a
    list, a tuple, an object of any other class) it raises an error whose
    message ends with the name of that type, as [type] prints it. *)
Theorem get_shape_spec :
  (∀ shape, get_shape (PArray shape) = Ok (take 2 shape)) ∧
  (∀ h w channels, get_shape (PArray (h :: w :: channels)) = Ok [h; w]) ∧
  (∀ shape, get_shape (PTensor shape) = Ok (drop (length shape - 2) shape)) ∧
  (∀ batch h w, get_shape (PTensor (batch ++ [h; w])) = Ok [h; w]) ∧
  (∀ z, get_shape (PInt z) = Err (RuntimeError
     "Albumentations supports only numpy.ndarray and torch.Tensor data type for image. Got: <class 'int'>")) ∧
  (∀ s, get_shape (PStr s) = Err (RuntimeError
     "Albumentations supports only numpy.ndarray and torch.Tensor data type for image. Got: <class 'str'>")) ∧
  (∀ xs, get_shape (PList xs) = Err (RuntimeError
     "Albumentations supports only numpy.ndarray and torch.Tensor data type for image. Got: <class 'list'>")) ∧
  (∀ xs, get_shape (PTuple xs) = Err (RuntimeError
     "Albumentations supports only numpy.ndarray and torch.Tensor data type for image. Got: <class 'tuple'>")) ∧
  (∀ cls id, get_shape (PObj cls id) = Err (RuntimeError
     ("Albumentations supports only numpy.ndarray and torch.Tensor data type for image. Got: <class '"
      +:+ cls +:+ "'>"))) ∧
  get_shape (PObj "NoneType" 0) = Err (RuntimeError
     "Albumentations supports only numpy.ndarray and torch.Tensor data type for image. Got: <class 'NoneType'>").
Proof.
  split_and!; try done.
  intros batch h w. simpl. rewrite length_app. simpl.
  replace (length batch + 2 - 2)%nat with (length batch) by lia.
  by rewrite drop_app_length.
Qed.

(** ** [add_targets] and [check_and_convert] *)

Section data_processor_facts.
Context `{Impl : DataProcessorImpl}.

Lemma add_targets_params (targets : list (string * string)) (self : DataProcessor) :
  params (add_targets self targets) = params self.
Proof.
  revert self. induction targets as [|[k v] rest IH]; intros self; simpl; [done|].
  case_decide; by rewrite IH.
Qed.

Lemma add_targets_NoDup (targets : list (string * string)) (self : DataProcessor) :
  NoDup (data_fields self) → NoDup (data_fields (add_targets self targets)).
Proof.
  revert self. induction targets as [|[k v] rest IH]; intros self Hnd; simpl; [done|].
  case_decide as Hacc; apply IH; [|done]. simpl.
  apply NoDup_app. split_and!; [done| |apply NoDup_singleton].
  intros x Hx ->%list_elem_of_singleton. by destruct Hacc.
Qed.

(** The stream names of a processor built by [__init__] are distinct. *)
Lemma init_NoDup (p : Params) (targets : option (list (string * string))) :
  NoDup (data_fields (init p targets)).
Proof.
  unfold init. destruct targets; [apply add_targets_NoDup|]; apply NoDup_singleton.
Qed.

Lemma add_targets_fields (targets : list (string * string)) (self : DataProcessor) :
  NoDup targets.*1 →
  data_fields (add_targets self targets)
  = data_fields self ++ (List.filter (accepted self) targets).*1.
Proof.
  revert self. induction targets as [|[k v] rest IH]; intros self Hnd; simpl.
  { by rewrite app_nil_r. }
  apply NoDup_cons in Hnd as [Hk Hnd].
  unfold accepted at 1. simpl. case_decide as Hacc.
  - rewrite bool_decide_eq_true_2 by done.
    rewrite IH by done. simpl. rewrite <- app_assoc. simpl. do 3 f_equal.
    apply List.filter_ext_in. intros [k' v'] Hin%list_elem_of_In.
    unfold accepted. simpl. apply bool_decide_ext.
    rewrite not_elem_of_app, list_elem_of_singleton.
    assert (k' ≠ k); [|tauto].
    intros ->. apply Hk. apply list_elem_of_fmap. by exists (k, v').
  - rewrite bool_decide_eq_false_2 by done. by apply IH.
Qed.

(** C4: [add_targets] appends to [data_fields], in the mapping's iteration
    order, exactly the alias names whose target is the processor's default
    stream and that [data_fields] does not hold yet; every other entry
    (another target, a name already there) changes nothing, and no entry
    raises: the call always returns. *)
Theorem add_targets_spec (self : DataProcessor) (targets : list (string * string)) :
  NoDup targets.*1 →
  add_targets self targets
  = {| params := params self;
       data_fields := data_fields self ++ (List.filter (accepted self) targets).*1 |}
  ∧ ((∀ k v, (k, v) ∈ targets → v ≠ default_data_name ∨ k ∈ data_fields self) →
     add_targets self targets = self).
Proof.
  intros Hnd.
  assert (Heq : add_targets self targets
    = {| params := params self;
         data_fields := data_fields self ++ (List.filter (accepted self) targets).*1 |}).
  { pose proof (add_targets_params targets self) as Hp.
    pose proof (add_targets_fields targets self Hnd) as Hf.
    destruct (add_targets self targets); simpl in *. by subst. }
  split; [done|]. intros Hnone. rewrite Heq.
  assert (List.filter (accepted self) targets = []) as ->.
  { clear Heq Hnd. induction targets as [|[k v] rest IH]; simpl; [done|].
    unfold accepted at 1. simpl. rewrite bool_decide_eq_false_2.
    - apply IH. intros k' v' Hin. apply Hnone. by right.
    - intros [-> Hk]. destruct (Hnone k default_data_name); [by left|done..]. }
  simpl. rewrite app_nil_r. by destruct self.
Qed.

(** C5: when the declared format is the canonical one, [check_and_convert]
    only runs [check]: in the direction "to" as in the direction "from" it
    raises what [check] raises and otherwise returns the records it was
    given, unchanged; no conversion is applied. *)
Theorem check_and_convert_canonical (self : DataProcessor) (data : pyval)
    (image_shape : list nat) :
  format (params self) = "albumentations" →
  check_and_convert self data image_shape "to"
    = (_ ← check data image_shape; mret data) ∧
  check_and_convert self data image_shape "from"
    = (_ ← check data image_shape; mret data) ∧
  (∀ direction, direction = "to" ∨ direction = "from" →
     match check data image_shape with
     | Ok _ => check_and_convert self data image_shape direction = Ok data
     | Err e => check_and_convert self data image_shape direction = Err e
     end).
Proof.
  intros Hfmt. unfold check_and_convert.
  destruct (decide (format (params self) = "albumentations")); [|done].
  split_and!; [done..|]. intros direction _. by destruct (check data image_shape).
Qed.

(** C10: when the declared format is the canonical one, the result of
    [check_and_convert] does not depend on the direction: for every
    direction token, "to" and "from" or any other, it is what [check]
    raises, or else the data; the branch that raises the invalid-direction
    error is taken only when the format is not canonical (and then for
    every token other than "to" and "from"). *)
Theorem check_and_convert_direction (self : DataProcessor) (data : pyval)
    (image_shape : list nat) (direction : string) :
  (format (params self) = "albumentations" →
     check_and_convert self data image_shape direction
       = (_ ← check data image_shape; mret data)) ∧
  (format (params self) ≠ "albumentations" →
     direction ≠ "to" → direction ≠ "from" →
     check_and_convert self data image_shape direction
       = Err (ValueError (invalid_direction_msg direction))).
Proof.
  unfold check_and_convert. split.
  - intros Hfmt. by rewrite decide_True.
  - intros Hfmt Hto Hfrom. by rewrite !decide_False.
Qed.

End data_processor_facts.

(** ** Statements *)

Lemma for_each_app {A : Type} (xs ys : list A) (body : A → stmt) (data : sample) :
  for_each (xs ++ ys) body data
  = seq_stmt (for_each xs body) (for_each ys body) data.
Proof.
  revert data. induction xs as [|x xs IH]; intros data; simpl; unfold seq_stmt.
  - done.
  - destruct (body x data) as [data'|e data']; [|done].
    rewrite IH. done.
Qed.

Lemma seq_stmt_Returned (s1 s2 : stmt) (data data' : sample) :
  s1 data = Returned data' → seq_stmt s1 s2 data = s2 data'.
Proof. intros H. unfold seq_stmt. by rewrite H. Qed.

Lemma seq_stmt_Raised (s1 s2 : stmt) (data data' : sample) (e : exn) :
  s1 data = Raised e data' → seq_stmt s1 s2 data = Raised e data'.
Proof. intros H. unfold seq_stmt. by rewrite H. Qed.

Lemma if_in_present (key : string) (s : stmt) (data : sample) (v : pyval) :
  data !! key = Some v → if_in key s data = s data.
Proof. intros H. unfold if_in. by rewrite decide_True by (by eexists). Qed.

Lemma if_in_absent (key : string) (s : stmt) (data : sample) :
  data !! key = None → if_in key s data = Returned data.
Proof.
  intros H. unfold if_in. rewrite decide_False; [done|].
  rewrite H. by intros [? ?].
Qed.

(** A loop over stream names none of which is in the sample does nothing. *)
Lemma for_each_absent (dns : list string) (body : string → stmt) (data : sample) :
  Forall (λ dn, data !! dn = None) dns →
  for_each dns (λ dn, if_in dn (body dn)) data = Returned data.
Proof.
  induction 1 as [|dn dns Hdn _ IH]; simpl; [done|].
  unfold seq_stmt. by rewrite if_in_absent.
Qed.

Lemma assign_Ok (key : string) (rhs : sample → result pyval) (data : sample)
    (v : pyval) :
  rhs data = Ok v → assign key rhs data = Returned (<[key := v]> data).
Proof. intros H. unfold assign. by rewrite H. Qed.

Lemma assign_Err (key : string) (rhs : sample → result pyval) (data : sample)
    (e : exn) :
  rhs data = Err e → assign key rhs data = Raised e data.
Proof. intros H. unfold assign. by rewrite H. Qed.

Lemma mapM_Ok_fmap {A B : Type} (f : A → result B) (g : A → B) (l : list A) :
  Forall (λ x, f x = Ok (g x)) l → mapM f l = Ok (g <$> l).
Proof.
  induction 1 as [|x l Hx _ IH]; simpl; [done|]. by rewrite Hx, IH.
Qed.

(** ** Streams of list records *)

Lemma stream_of_inj (recs recs' : list (list pyval)) :
  stream_of recs = stream_of recs' → recs = recs'.
Proof.
  unfold stream_of. intros [= H]. revert recs' H.
  induction recs as [|r recs IH]; intros [|r' recs'] H; simplify_eq/=; [done|].
  f_equal. by apply IH.
Qed.

Lemma length_add_column (recs : list (list pyval)) (col : list pyval) :
  length col = length recs → length (add_column recs col) = length recs.
Proof. intros H. unfold add_column. rewrite length_zip_with. lia. Qed.

Lemma length_add_columns (cols : list (list pyval)) (recs : list (list pyval)) :
  Forall (λ col, length col = length recs) cols →
  length (add_columns recs cols) = length recs.
Proof.
  revert recs. induction cols as [|col cols IH]; intros recs Hc; simpl; [done|].
  apply Forall_cons in Hc as [Hcol Hc].
  unfold add_columns in IH. rewrite IH.
  - by apply length_add_column.
  - by rewrite length_add_column.
Qed.

(** Record [i] after all columns are added: the coordinates, then entry [i]
    of each column in turn. *)
Lemma add_columns_lookup (cols : list (list pyval)) (recs : list (list pyval))
    (i : nat) (r : list pyval) :
  Forall (λ col, length col = length recs) cols →
  recs !! i = Some r →
  add_columns recs cols !! i = Some (r ++ ((λ col, col !!! i) <$> cols)).
Proof.
  unfold add_columns. revert recs r.
  induction cols as [|col cols IH]; intros recs r Hc Hr; simpl.
  { by rewrite app_nil_r. }
  apply Forall_cons in Hc as [Hcol Hc].
  assert (Hi : (i < length col)%nat).
  { rewrite Hcol. by eapply lookup_lt_Some. }
  destruct (lookup_lt_is_Some_2 col i Hi) as [v Hv].
  rewrite (IH (add_column recs col) (r ++ [v])).
  - rewrite <- app_assoc. simpl. do 3 f_equal.
    symmetry. by apply list_lookup_total_correct.
  - rewrite length_add_column by done. done.
  - unfold add_column. rewrite lookup_zip_with. by rewrite Hr, Hv.
Qed.

Lemma label_at_app (k idx : nat) (r labels : list pyval) :
  length labels = k → (idx < k)%nat → label_at k idx (r ++ labels) = labels !!! idx.
Proof.
  intros Hk Hidx. unfold label_at. rewrite length_app, Hk.
  rewrite lookup_total_app_r by lia. f_equal. lia.
Qed.

Lemma without_labels_app (k : nat) (r labels : list pyval) :
  length labels = k → without_labels k (r ++ labels) = r.
Proof.
  intros Hk. unfold without_labels. rewrite length_app, Hk.
  replace (length r + k - k)%nat with (length r) by lia.
  by rewrite take_app_length.
Qed.

(** Unpacking what was packed gives back the columns and the records. *)
Lemma label_at_add_columns (cols : list (list pyval)) (recs : list (list pyval))
    (idx : nat) (col : list pyval) :
  Forall (λ col, length col = length recs) cols →
  cols !! idx = Some col →
  label_at (length cols) idx <$> add_columns recs cols = col.
Proof.
  intros Hc Hcol.
  assert (Hidx : (idx < length cols)%nat) by (by eapply lookup_lt_Some).
  assert (Hlen : length col = length recs).
  { eapply Forall_forall in Hc; [done|]. by eapply list_elem_of_lookup_2. }
  apply list_eq. intros i. rewrite list_lookup_fmap.
  destruct (recs !! i) as [r|] eqn:Hr.
  - rewrite (add_columns_lookup cols recs i r Hc Hr). simpl.
    rewrite label_at_app by (by rewrite ?length_fmap).
    rewrite (list_lookup_total_fmap (λ c : list pyval, c !!! i) cols idx Hidx).
    rewrite (list_lookup_total_correct cols idx col Hcol).
    symmetry. apply list_lookup_lookup_total_lt.
    rewrite Hlen. by eapply lookup_lt_Some.
  - apply lookup_ge_None in Hr.
    rewrite (lookup_ge_None_2 col) by lia.
    rewrite lookup_ge_None_2; [done|]. by rewrite length_add_columns.
Qed.

Lemma without_labels_add_columns (cols : list (list pyval))
    (recs : list (list pyval)) :
  Forall (λ col, length col = length recs) cols →
  without_labels (length cols) <$> add_columns recs cols = recs.
Proof.
  intros Hc. apply list_eq. intros i. rewrite list_lookup_fmap.
  destruct (recs !! i) as [r|] eqn:Hr.
  - rewrite (add_columns_lookup cols recs i r Hc Hr). simpl.
    by rewrite without_labels_app by (by rewrite length_fmap).
  - apply lookup_ge_None in Hr.
    rewrite lookup_ge_None_2; [done|]. by rewrite length_add_columns.
Qed.

Lemma add_columns_long (cols : list (list pyval)) (recs : list (list pyval)) :
  Forall (λ col, length col = length recs) cols →
  Forall (λ r, (length cols ≤ length r)%nat) (add_columns recs cols).
Proof.
  intros Hc. apply Forall_lookup. intros i row Hrow.
  assert (Hi : (i < length recs)%nat).
  { rewrite <- (length_add_columns cols recs Hc). by eapply lookup_lt_Some. }
  destruct (lookup_lt_is_Some_2 recs i Hi) as [r Hr].
  rewrite (add_columns_lookup cols recs i r Hc Hr) in Hrow.
  injection Hrow as <-. rewrite length_app, length_fmap. lia.
Qed.

(** ** Indexing and slicing a list record *)

Lemma py_index_label (k idx : nat) (r : list pyval) :
  (k ≤ length r)%nat → (idx < k)%nat →
  py_index (PList r) (- Z.of_nat k + Z.of_nat idx) = Ok (label_at k idx r).
Proof.
  intros Hk Hidx. unfold py_index, norm_index, label_at.
  rewrite (proj2 (Z.ltb_lt _ _)) by lia.
  rewrite (proj2 (Z.leb_le _ _)), (proj2 (Z.ltb_lt _ _)) by lia. simpl.
  replace (Z.to_nat (- Z.of_nat k + Z.of_nat idx + Z.of_nat (length r)))
    with (length r - k + idx)%nat by lia.
  rewrite list_lookup_lookup_total_lt by lia. done.
Qed.

Lemma py_slice_without (k : nat) (r : list pyval) :
  (1 ≤ k)%nat →
  py_slice_to (PList r) (- Z.of_nat k) = Ok (PList (without_labels k r)).
Proof.
  intros Hk. unfold py_slice_to, norm_stop, without_labels.
  rewrite (proj2 (Z.ltb_lt _ _)) by lia. do 3 f_equal. lia.
Qed.

(** ** The passes of [add_label_fields_to_data] *)

Lemma mapM_add_column (recs : list (list pyval)) (col : list pyval) :
  mapM (λ p : pyval * pyval, items ← py_iter p.1; mret (PList (items ++ [p.2])))
       (zip (PList <$> recs) col)
  = Ok (PList <$> add_column recs col).
Proof.
  revert col. induction recs as [|r recs IH]; intros [|v col]; simpl; try done.
  unfold add_column in IH. by rewrite IH.
Qed.

Lemma add_field_Ok `{Impl : DataProcessorImpl} (data_name field : string)
    (data : sample) (recs : list (list pyval)) (col : list pyval) :
  data !! data_name = Some (stream_of recs) →
  data !! field = Some (PList col) →
  length col = length recs →
  add_field data_name field data
  = Returned (<[data_name := stream_of (add_column recs col)]> data).
Proof.
  intros Hs Hf Hlen. unfold add_field. apply assign_Ok.
  unfold py_getitem. rewrite Hs, Hf. unfold stream_of.
  cbn [mbind result_bind py_len py_iter].
  rewrite decide_True by (by rewrite length_fmap).
  by rewrite mapM_add_column.
Qed.

Lemma column_insert_ne (data : sample) (key field : string) (v : pyval) :
  key ≠ field → column (<[key := v]> data) field = column data field.
Proof. intros H. unfold column. by rewrite lookup_insert_ne. Qed.

(** All label fields match one stream: the loop over the fields returns,
    with every column packed into the stream. *)
Lemma add_fields_Ok `{Impl : DataProcessorImpl} (data_name : string)
    (fields : list string) (data : sample) (recs : list (list pyval)) :
  data !! data_name = Some (stream_of recs) →
  data_name ∉ fields →
  Forall (λ f, ∃ col, data !! f = Some (PList col) ∧ length col = length recs)
         fields →
  for_each fields (λ field, add_field data_name field) data
  = Returned (<[data_name := stream_of (add_columns recs (column data <$> fields))]>
                data).
Proof.
  revert data recs.
  induction fields as [|f fields IH]; intros data recs Hs Hnot Hcols; simpl.
  { by rewrite insert_id. }
  apply not_elem_of_cons in Hnot as [Hne Hnot].
  apply Forall_cons in Hcols as [(col & Hf & Hlen) Hcols].
  unfold seq_stmt. rewrite (add_field_Ok _ _ _ recs col) by done.
  rewrite (IH _ (add_column recs col)).
  - rewrite insert_insert_eq. do 2 f_equal. unfold add_columns. simpl.
    assert (column data f = col) as -> by (by unfold column; rewrite Hf).
    do 2 f_equal.
    apply list_fmap_ext. intros i f' Hf'. apply column_insert_ne.
    intros ->. apply Hnot. by eapply list_elem_of_lookup_2.
  - by rewrite lookup_insert_eq.
  - done.
  - eapply Forall_impl; [apply Forall_and; split; [exact Hcols|]|].
    + apply Forall_forall. intros f' Hf'. exact Hf'.
    + simpl. intros f' [(col' & Hf' & Hlen') Hin].
      exists col'. rewrite length_add_column by done. split; [|done].
      rewrite lookup_insert_ne; [done|]. by intros ->.
Qed.

Lemma records_stream_of (recs : list (list pyval)) : records (stream_of recs) = recs.
Proof.
  unfold records, stream_of. simpl. rewrite <- list_fmap_compose.
  rewrite <- (list_fmap_id recs) at 2. by apply list_fmap_ext.
Qed.

Lemma column_fmap_ext (fields : list string) (data data' : sample) :
  (∀ f, f ∈ fields → data' !! f = data !! f) →
  column data' <$> fields = column data <$> fields.
Proof.
  intros H. apply list_fmap_ext. intros i f Hf. unfold column.
  rewrite H; [done|]. by eapply list_elem_of_lookup_2.
Qed.

(** The loop of [add_label_fields_to_data] over the stream names, when every
    column matches every stream: it returns, each stream of [dns] is packed
    and nothing else has changed. *)
Lemma add_loop_Ok `{Impl : DataProcessorImpl} (dns fields : list string)
    (data : sample) :
  NoDup dns →
  (∀ f, f ∈ fields → f ∉ dns) →
  columns_match dns fields data →
  ∃ data1,
    for_each dns (λ dn, if_in dn (for_each fields (λ field, add_field dn field))) data
    = Returned data1 ∧
    (∀ k, k ∉ dns → data1 !! k = data !! k) ∧
    (∀ dn, dn ∈ dns → data1 !! dn = packed fields data <$> data !! dn).
Proof.
  revert data. induction dns as [|a dns IH]; intros data Hnd Hdisj Hwf; simpl.
  { exists data. split_and!; [done..|]. intros dn Hdn. by apply elem_of_nil in Hdn. }
  apply NoDup_cons in Hnd as [Ha Hnd]. unfold seq_stmt.
  assert (Hdisj' : ∀ f, f ∈ fields → f ∉ dns).
  { intros f Hf Hin. apply (Hdisj f Hf). by right. }
  destruct (data !! a) as [v|] eqn:Hv.
  - destruct (Hwf a v) as (recs & -> & Hcols); [by left|done|].
    rewrite (if_in_present _ _ _ _ Hv).
    rewrite (add_fields_Ok a fields data recs Hv); [|intros Hin; apply (Hdisj a Hin); by left|done].
    set (data' := <[a := stream_of (add_columns recs (column data <$> fields))]> data).
    assert (Hcol' : column data' <$> fields = column data <$> fields).
    { apply column_fmap_ext. intros f Hf. unfold data'.
      rewrite lookup_insert_ne; [done|]. intros ->. apply (Hdisj f Hf). by left. }
    destruct (IH data') as (data1 & Hrun & Hframe & Hpack); [done..| |].
    { intros dn v Hdn Hlook. unfold data' in Hlook.
      rewrite lookup_insert_ne in Hlook by (by intros ->).
      destruct (Hwf dn v) as (recs' & -> & Hcols'); [by right|done|].
      exists recs'. split; [done|].
      eapply Forall_impl; [apply Forall_and; split; [exact Hcols'|]|].
      + apply Forall_forall. intros f' Hf'. exact Hf'.
      + simpl. intros f' [(col' & Hf' & Hlen') Hin]. exists col'. split; [|done].
        unfold data'. rewrite lookup_insert_ne; [done|].
        intros ->. apply (Hdisj f' Hin). by left. }
    exists data1. split_and!; [done| |].
    + intros k Hk. apply not_elem_of_cons in Hk as [Hka Hk].
      rewrite Hframe by done. unfold data'. by rewrite lookup_insert_ne.
    + intros dn [->|Hdn]%elem_of_cons.
      * rewrite Hframe by done. unfold data'. rewrite lookup_insert_eq, Hv. simpl.
        unfold packed. by rewrite records_stream_of.
      * rewrite Hpack by done. unfold packed. rewrite Hcol'. unfold data'.
        rewrite lookup_insert_ne; [done|]. by intros ->.
  - rewrite (if_in_absent _ _ _ Hv).
    destruct (IH data) as (data1 & Hrun & Hframe & Hpack); [done..| |].
    { intros dn v Hdn Hlook. apply (Hwf dn v); [by right|done]. }
    exists data1. split_and!; [done| |].
    + intros k Hk. apply not_elem_of_cons in Hk as [Hka Hk]. by apply Hframe.
    + intros dn [->|Hdn]%elem_of_cons; [|by apply Hpack].
      rewrite Hframe by done. by rewrite Hv.
Qed.

(** ** The same passes over lists and tuples *)

Lemma seq_items_iter (v : pyval) (xs : list pyval) :
  seq_items v = Some xs → py_iter v = Ok xs ∧ py_len v = Ok (length xs).
Proof. destruct v; intros [= <-]; done. Qed.

Lemma seq_items_stream_of (recs : list (list pyval)) :
  seq_items (stream_of recs) = Some (PList <$> recs).
Proof. done. Qed.

Lemma seq_rows_stream_of (recs : list (list pyval)) : seq_rows (stream_of recs) = recs.
Proof.
  unfold seq_rows, stream_of, entries. simpl. rewrite <- list_fmap_compose.
  rewrite <- (list_fmap_id recs) at 2. by apply list_fmap_ext.
Qed.

Lemma entries_stream_of (recs : list (list pyval)) :
  entries (stream_of recs) = PList <$> recs.
Proof. done. Qed.

Lemma is_stream_stream_of (recs : list (list pyval)) : is_stream (stream_of recs).
Proof.
  exists (PList <$> recs). split; [done|].
  apply Forall_fmap, Forall_forall. intros r _. by eexists.
Qed.

Lemma mapM_add_column_seq (ds : list pyval) (col : list pyval) :
  Forall (λ d, is_Some (seq_items d)) ds →
  mapM (λ p : pyval * pyval, items ← py_iter p.1; mret (PList (items ++ [p.2])))
       (zip ds col)
  = Ok (PList <$> add_column (entries <$> ds) col).
Proof.
  intros H. revert col.
  induction H as [|d ds [xs Hd] _ IH]; intros [|v col]; simpl; try done.
  destruct (seq_items_iter d xs Hd) as [-> _]. simpl.
  unfold add_column in IH. rewrite IH. unfold entries. by rewrite Hd.
Qed.


Lemma add_field_seq (data_name field : string) (data : sample)
    (v c : pyval) (ds col : list pyval) :
  data !! data_name = Some v → seq_items v = Some ds →
  Forall (λ d, is_Some (seq_items d)) ds →
  data !! field = Some c → seq_items c = Some col →
  add_field data_name field data
  = if decide (length ds = length col)
    then Returned (<[data_name := stream_of (add_column (entries <$> ds) col)]> data)
    else Raised (ValueError (lengths_msg (length ds) (length col))) data.
Proof.
  intros Hs Hds Hrecs Hf Hcol.
  destruct (seq_items_iter v ds Hds) as [Hiv Hlv].
  destruct (seq_items_iter c col Hcol) as [Hic Hlc].
  unfold add_field, assign, py_getitem. rewrite Hs, Hf.
  cbn [mbind result_bind]. rewrite Hlv, Hlc. cbn [mbind result_bind].
  destruct (decide (length ds = length col)) as [Hlen|Hlen]; [|done].
  rewrite Hiv, Hic. cbn [mbind result_bind].
  by rewrite mapM_add_column_seq.
Qed.

Lemma labels_of_lookup (data : sample) (f : string) (c : pyval) (col : list pyval) :
  data !! f = Some c → seq_items c = Some col → labels_of data f = col.
Proof. intros Hf Hc. unfold labels_of, entries. by rewrite Hf; simpl; rewrite Hc. Qed.

Lemma labels_of_insert_ne (data : sample) (key f : string) (v : pyval) :
  key ≠ f → labels_of (<[key := v]> data) f = labels_of data f.
Proof. intros H. unfold labels_of. by rewrite lookup_insert_ne. Qed.

Lemma labels_of_fmap_ext (fields : list string) (data data' : sample) :
  (∀ f, f ∈ fields → data' !! f = data !! f) →
  labels_of data' <$> fields = labels_of data <$> fields.
Proof.
  intros H. apply list_fmap_ext. intros i f Hf. unfold labels_of.
  rewrite H; [done|]. by eapply list_elem_of_lookup_2.
Qed.

Lemma repacked_ext (fields : list string) (data data' : sample) (v : pyval) :
  (∀ f, f ∈ fields → data' !! f = data !! f) →
  repacked fields data' v = repacked fields data v.
Proof.
  intros H. unfold repacked. destruct fields as [|f fields]; [done|].
  by rewrite (labels_of_fmap_ext _ data data').
Qed.

Lemma repacked_cons (f : string) (fields : list string) (data : sample) (v : pyval) :
  repacked (f :: fields) data v
  = repacked fields data (stream_of (add_column (seq_rows v) (labels_of data f))).
Proof.
  unfold repacked. destruct fields as [|g fields]; [done|].
  by rewrite seq_rows_stream_of.
Qed.

Lemma Forall_fits (fields : list string) (data : sample) (v : pyval) :
  Forall (λ f, is_column data f ∧ fits data v f) fields →
  Forall (λ col, length col = length (seq_rows v)) (labels_of data <$> fields).
Proof.
  intros H. apply Forall_fmap. eapply Forall_impl; [exact H|].
  intros f [_ Hfit]. simpl. unfold seq_rows. by rewrite length_fmap.
Qed.

(** The stream a pass leaves is a stream again, with as many records. *)
Lemma repacked_is_stream (fields : list string) (data : sample) (v : pyval) :
  is_stream v →
  Forall (λ f, is_column data f ∧ fits data v f) fields →
  is_stream (repacked fields data v) ∧
  length (entries (repacked fields data v)) = length (entries v).
Proof.
  intros Hv Hcols. unfold repacked. destruct fields as [|f fields]; [done|].
  split; [apply is_stream_stream_of|].
  rewrite entries_stream_of, length_fmap.
  rewrite length_add_columns by (by apply Forall_fits).
  unfold seq_rows. by rewrite length_fmap.
Qed.

(** One stream, and label fields whose columns all fit it: the loop over the
    fields returns with the columns packed into the stream. *)
Lemma add_fields_seq (data_name : string) (fields : list string) (data : sample)
    (v : pyval) :
  data !! data_name = Some v →
  data_name ∉ fields →
  is_stream v →
  Forall (λ f, is_column data f ∧ fits data v f) fields →
  for_each fields (λ field, add_field data_name field) data
  = Returned (<[data_name := repacked fields data v]> data).
Proof.
  revert data v.
  induction fields as [|f fields IH]; intros data v Hs Hnot Hv Hcols.
  { simpl. by rewrite insert_id. }
  cbn [for_each].
  apply not_elem_of_cons in Hnot as [Hne Hnot].
  apply Forall_cons in Hcols as [[(c & Hf & col & Hc) Hfit] Hcols].
  destruct Hv as (ds & Hds & Hrecs).
  pose proof (labels_of_lookup _ _ _ _ Hf Hc) as Hlab.
  assert (Hlen : length ds = length col).
  { unfold fits in Hfit. rewrite Hlab in Hfit. unfold entries in Hfit.
    by rewrite Hds in Hfit. }
  unfold seq_stmt. rewrite (add_field_seq _ _ _ v c ds col) by done.
  rewrite decide_True by done.
  set (v' := stream_of (add_column (entries <$> ds) col)).
  assert (Hlen' : length (entries v') = length (entries v)).
  { unfold v'. rewrite entries_stream_of.
    rewrite length_fmap, length_add_column by (by rewrite length_fmap).
    rewrite length_fmap. unfold entries. by rewrite Hds. }
  rewrite (IH _ v').
  - rewrite insert_insert_eq. do 2 f_equal. rewrite repacked_cons.
    rewrite Hlab. unfold seq_rows, entries at 2. rewrite Hds. simpl.
    apply repacked_ext. intros g Hg. rewrite lookup_insert_ne; [done|].
    by intros ->.
  - by rewrite lookup_insert_eq.
  - done.
  - apply is_stream_stream_of.
  - eapply Forall_impl; [apply Forall_and; split; [exact Hcols|]|].
    + apply Forall_forall. intros g Hg. exact Hg.
    + simpl. intros g [[(c' & Hg & Hc') Hfit'] Hin].
      assert (Hga : data_name ≠ g) by (by intros ->).
      split.
      * exists c'. by rewrite lookup_insert_ne.
      * unfold fits. rewrite labels_of_insert_ne by done. by rewrite Hlen'.
Qed.

(** One stream, label fields that fit it, then one that does not: the loop
    raises at that field, with the fields before it packed into the stream. *)
Lemma add_fields_first_mismatch (data_name : string) (fpre : list string)
    (f : string) (fpost : list string) (data : sample) (v : pyval) :
  data !! data_name = Some v →
  data_name ∉ fpre ++ f :: fpost →
  is_stream v →
  Forall (λ g, is_column data g ∧ fits data v g) fpre →
  is_column data f → ¬ fits data v f →
  for_each (fpre ++ f :: fpost) (λ field, add_field data_name field) data
  = Raised (ValueError (lengths_msg (length (entries v)) (length (labels_of data f))))
           (<[data_name := repacked fpre data v]> data).
Proof.
  intros Hs Hnot Hv Hcols (c & Hf & col & Hc) Hbad.
  apply not_elem_of_app in Hnot as [Hpre Hnot].
  apply not_elem_of_cons in Hnot as [Hne _].
  rewrite for_each_app.
  rewrite (seq_stmt_Returned _ _ _ _ (add_fields_seq _ _ _ _ Hs Hpre Hv Hcols)).
  destruct (repacked_is_stream fpre data v Hv Hcols) as [(ds & Hds & Hrecs) Hlen].
  simpl. apply seq_stmt_Raised.
  rewrite (add_field_seq _ _ _ (repacked fpre data v) c ds col);
    [|by rewrite lookup_insert_eq|done|done|by rewrite lookup_insert_ne|done].
  pose proof (labels_of_lookup _ _ _ _ Hf Hc) as Hlab.
  unfold fits in Hbad. rewrite Hlab in *.
  assert (length ds = length (entries v)) as Hds'.
  { rewrite <- Hlen. unfold entries. by rewrite Hds. }
  rewrite decide_False by congruence.
  by rewrite Hds'.
Qed.

(** The loop of [add_label_fields_to_data] over the stream names, when every
    column fits every stream of [dns] that is in the sample: it returns, each
    stream of [dns] is packed and nothing else has changed. *)
Lemma add_loop_seq (dns fields : list string) (data : sample) :
  NoDup dns →
  (∀ f, f ∈ fields → f ∉ dns) →
  sequences_match dns fields data →
  ∃ data1,
    for_each dns (λ dn, if_in dn (for_each fields (λ field, add_field dn field))) data
    = Returned data1 ∧
    (∀ key, key ∉ dns → data1 !! key = data !! key) ∧
    (∀ dn, dn ∈ dns → data1 !! dn = repacked fields data <$> data !! dn).
Proof.
  revert data. induction dns as [|a dns IH]; intros data Hnd Hdisj Hwf; simpl.
  { exists data. split_and!; [done..|]. intros dn Hdn. by apply elem_of_nil in Hdn. }
  apply NoDup_cons in Hnd as [Ha Hnd]. unfold seq_stmt.
  assert (Hdisj' : ∀ f, f ∈ fields → f ∉ dns).
  { intros f Hf Hin. apply (Hdisj f Hf). by right. }
  assert (Hane : a ∉ fields).
  { intros Hin. apply (Hdisj a Hin). by left. }
  destruct (data !! a) as [v|] eqn:Hv.
  - destruct (Hwf a v) as [Hstream Hcols]; [by left|done|].
    rewrite (if_in_present _ _ _ _ Hv).
    rewrite (add_fields_seq a fields data v Hv Hane Hstream Hcols).
    set (data' := <[a := repacked fields data v]> data).
    assert (Hsame : ∀ f, f ∈ fields → data' !! f = data !! f).
    { intros f Hf. unfold data'. rewrite lookup_insert_ne; [done|]. by intros ->. }
    destruct (IH data') as (data1 & Hrun & Hframe & Hpack); [done..| |].
    { intros dn w Hdn Hlook. unfold data' in Hlook.
      rewrite lookup_insert_ne in Hlook by (by intros ->).
      destruct (Hwf dn w) as [Hw Hcols']; [by right|done|].
      split; [done|].
      eapply Forall_impl; [apply Forall_and; split; [exact Hcols'|]|].
      + apply Forall_forall. intros g Hg. exact Hg.
      + simpl. intros g [[(c & Hg & Hc) Hfit] Hin]. split.
        * exists c. by rewrite Hsame.
        * unfold fits, labels_of. by rewrite Hsame. }
    exists data1. split_and!; [done| |].
    + intros key [Hka Hkey]%not_elem_of_cons.
      rewrite Hframe by done. unfold data'. by rewrite lookup_insert_ne.
    + intros dn [->|Hdn]%elem_of_cons.
      * rewrite Hframe by done. unfold data'. by rewrite lookup_insert_eq, Hv.
      * rewrite Hpack by done. unfold data' at 2.
        rewrite lookup_insert_ne by (by intros ->).
        destruct (data !! dn) as [w|]; [simpl|done]. f_equal.
        by apply repacked_ext.
  - rewrite (if_in_absent _ _ _ Hv).
    destruct (IH data) as (data1 & Hrun & Hframe & Hpack); [done..| |].
    { intros dn w Hdn Hlook. apply (Hwf dn w); [by right|done]. }
    exists data1. split_and!; [done| |].
    + intros key [Hka Hkey]%not_elem_of_cons. by apply Hframe.
    + intros dn [->|Hdn]%elem_of_cons; [|by apply Hpack].
      rewrite Hframe by done. by rewrite Hv.
Qed.

(** The same loop when the streams of [pre] fit, and the stream [dn] after
    them fits the columns of [fpre] and not the column of [f]: it raises for
    that pair.  By then every stream of [pre] is packed with all columns and
    the stream [dn] with those of [fpre]; nothing else has changed. *)
Lemma add_loop_first_mismatch (pre : list string) (dn : string) (post : list string)
    (fpre : list string) (f : string) (fpost : list string) (data : sample)
    (v : pyval) :
  let dns := pre ++ dn :: post in
  let fields := fpre ++ f :: fpost in
  NoDup dns →
  (∀ g, g ∈ fields → g ∉ dns) →
  sequences_match pre fields data →
  data !! dn = Some v → is_stream v →
  Forall (λ g, is_column data g ∧ fits data v g) fpre →
  is_column data f → ¬ fits data v f →
  ∃ data',
    for_each dns (λ dn, if_in dn (for_each fields (λ field, add_field dn field))) data
    = Raised (ValueError (lengths_msg (length (entries v)) (length (labels_of data f))))
             data' ∧
    (∀ d, d ∈ pre → data' !! d = repacked fields data <$> data !! d) ∧
    data' !! dn = Some (repacked fpre data v) ∧
    (∀ key, key ∉ pre → key ≠ dn → data' !! key = data !! key).
Proof.
  intros dns fields Hnd Hdisj Hwf Hv Hstream Hcols Hf Hbad.
  apply NoDup_app in Hnd as (Hndpre & Hpre & Hndpost).
  assert (Hdn : dn ∉ pre).
  { intros Hin. apply (Hpre dn Hin). by left. }
  destruct (add_loop_seq pre fields data Hndpre) as (data1 & Hrun & Hframe & Hpack);
    [|done|].
  { intros g Hg Hin. apply (Hdisj g Hg). apply elem_of_app. by left. }
  assert (Hsame : ∀ g, g ∈ fields → data1 !! g = data !! g).
  { intros g Hg. apply Hframe. intros Hin. apply (Hdisj g Hg).
    apply elem_of_app. by left. }
  assert (Hin_fpre : ∀ g, g ∈ fpre → g ∈ fields).
  { intros g Hg. apply elem_of_app. by left. }
  assert (Hin_f : f ∈ fields).
  { apply elem_of_app. right. by left. }
  assert (Hv1 : data1 !! dn = Some v) by (by rewrite Hframe).
  exists (<[dn := repacked fpre data v]> data1). split_and!.
  - unfold dns. rewrite for_each_app. rewrite (seq_stmt_Returned _ _ _ _ Hrun).
    cbn [for_each]. apply seq_stmt_Raised. rewrite (if_in_present _ _ _ _ Hv1).
    unfold fields.
    rewrite (add_fields_first_mismatch dn fpre f fpost data1 v); [| done | | done | | |].
    + unfold labels_of. rewrite Hsame by done.
      by rewrite (repacked_ext fpre data data1) by (intros g Hg; by apply Hsame, Hin_fpre).
    + intros Hin. apply (Hdisj dn Hin). apply elem_of_app. right. by left.
    + eapply Forall_impl; [apply Forall_and; split; [exact Hcols|]|].
      * apply Forall_forall. intros g Hg. exact Hg.
      * simpl. intros g [[(c & Hg & Hc) Hfit] Hin]. split.
        -- exists c. by rewrite Hsame by (by apply Hin_fpre).
        -- unfold fits, labels_of. by rewrite Hsame by (by apply Hin_fpre).
    + destruct Hf as (c & Hf & Hc). exists c. by rewrite Hsame.
    + unfold fits, labels_of. by rewrite Hsame.
  - intros d Hd. rewrite lookup_insert_ne by (by intros ->). by apply Hpack.
  - by rewrite lookup_insert_eq.
  - intros key Hkey Hne. rewrite lookup_insert_ne by done. by apply Hframe.
Qed.

(** The first element of a list with a decidable property, when there is one. *)
Lemma Exists_first {A : Type} (P : A → Prop) `{!∀ x, Decision (P x)} (l : list A) :
  Exists P l →
  ∃ pre x post, l = pre ++ x :: post ∧ Forall (λ y, ¬ P y) pre ∧ P x.
Proof.
  induction l as [|a l IH]; intros Hex; [by apply Exists_nil in Hex|].
  destruct (decide (P a)) as [Ha|Ha].
  - by exists [], a, l.
  - apply Exists_cons in Hex as [?|Hex]; [done|].
    destruct (IH Hex) as (pre & x & post & -> & Hpre & Hx).
    exists (a :: pre), x, post. split_and!; [done| |done]. by constructor.
Qed.

(** Two ways of cutting a list at an element, neither element in the other
    one's front part, are the same. *)
Lemma first_split_unique {A : Type} (pre pre' post post' : list A) (a b : A) :
  pre ++ a :: post = pre' ++ b :: post' → a ∉ pre' → b ∉ pre →
  pre = pre' ∧ a = b ∧ post = post'.
Proof.
  revert pre'. induction pre as [|x pre IH]; intros [|y pre'] Heq Ha Hb;
    simpl in Heq; injection Heq as Hhead Htail.
  - by subst.
  - exfalso. apply Ha. subst. by left.
  - exfalso. apply Hb. subst. by left.
  - apply not_elem_of_cons in Ha as [_ Ha]. apply not_elem_of_cons in Hb as [_ Hb].
    destruct (IH pre' Htail Ha Hb) as (-> & -> & ->). by subst.
Qed.

(** ** The passes of [remove_label_fields_from_data] *)


Lemma enumerate_from_elem_of {A : Type} (xs : list A) (i n : nat) (x : A) :
  (n, x) ∈ enumerate_from i xs → (i ≤ n)%nat ∧ xs !! (n - i)%nat = Some x.
Proof.
  revert i. induction xs as [|y xs IH]; intros i; simpl.
  { intros H. by apply elem_of_nil in H. }
  intros [[= -> ->]|Hin]%elem_of_cons.
  - split; [lia|]. by rewrite Nat.sub_diag.
  - apply IH in Hin as [Hle Hx]. split; [lia|].
    replace (n - i)%nat with (S (n - S i)) by lia. done.
Qed.

Lemma unpacked_lookup_ne (k : nat) (rows : list (list pyval))
    (ps : list (nat * string)) (data : sample) (key : string) :
  key ∉ ps.*2 → unpacked k rows data ps !! key = data !! key.
Proof.
  unfold unpacked. revert data.
  induction ps as [|[j f] ps IH]; intros data Hkey; simpl; [done|].
  simpl in Hkey. apply not_elem_of_cons in Hkey as [Hne Hkey].
  rewrite IH by done. by rewrite lookup_insert_ne.
Qed.


(** Storing a column the sample already holds leaves the sample as it is. *)
Lemma unpacked_id (k : nat) (rows : list (list pyval))
    (ps : list (nat * string)) (data : sample) :
  (∀ j f, (j, f) ∈ ps → data !! f = Some (PList (label_at k j <$> rows))) →
  unpacked k rows data ps = data.
Proof.
  unfold unpacked. induction ps as [|[j f] ps IH]; intros H; simpl; [done|].
  rewrite insert_id by (apply H; by left). apply IH.
  intros j' f' Hin. apply H. by right.
Qed.

(** Storing the columns of rows that hold, at the offset of each field, the
    column [g] names for it: every field ends up with that column. *)
Lemma unpacked_fields_lookup (k : nat) (rows : list (list pyval))
    (g : string → list pyval) (ps : list (nat * string)) (data : sample)
    (f : string) :
  (∀ j f', (j, f') ∈ ps → label_at k j <$> rows = g f') →
  f ∈ ps.*2 →
  unpacked k rows data ps !! f = Some (PList (g f)).
Proof.
  revert data. induction ps as [|[j f'] ps IH]; intros data Hcol Hin.
  { by apply elem_of_nil in Hin. }
  change (unpacked k rows (<[f' := PList (label_at k j <$> rows)]> data) ps !! f
          = Some (PList (g f))).
  destruct (decide (f ∈ ps.*2)) as [Hlater|Hlast].
  - apply IH; [|done]. intros j' f'' Hin'. apply Hcol. by right.
  - rewrite unpacked_lookup_ne by done.
    simpl in Hin. apply elem_of_cons in Hin as [->|Hin]; [|done].
    rewrite lookup_insert_eq. do 2 f_equal. apply Hcol. by left.
Qed.

Lemma enumerate_from_snd {A : Type} (xs : list A) (i : nat) :
  (enumerate_from i xs).*2 = xs.
Proof.
  revert i. induction xs as [|x xs IH]; intros i; simpl; [done|]. by rewrite IH.
Qed.

Lemma take_field_Ok `{Impl : DataProcessorImpl} (data_name : string)
    (k idx : nat) (field : string) (data : sample) (rows : list (list pyval)) :
  data !! data_name = Some (stream_of rows) →
  Forall (λ r, (k ≤ length r)%nat) rows →
  (idx < k)%nat →
  take_field data_name k idx field data
  = Returned (<[field := PList (label_at k idx <$> rows)]> data).
Proof.
  intros Hs Hrows Hidx. unfold take_field. apply assign_Ok.
  unfold py_getitem. rewrite Hs. unfold stream_of.
  cbn [mbind result_bind py_iter].
  rewrite (mapM_Ok_fmap _ (λ v, label_at k idx (items v))).
  - cbn [mbind result_bind]. rewrite result_ret_Ok. do 2 f_equal.
    rewrite <- list_fmap_compose. by apply list_fmap_ext.
  - apply Forall_fmap. eapply Forall_impl; [exact Hrows|].
    intros r Hr. simpl. by apply py_index_label.
Qed.

Lemma strip_fields_Ok `{Impl : DataProcessorImpl} (data_name : string)
    (k : nat) (data : sample) (rows : list (list pyval)) :
  data !! data_name = Some (stream_of rows) →
  (1 ≤ k)%nat →
  strip_fields data_name k data
  = Returned (<[data_name := stream_of (without_labels k <$> rows)]> data).
Proof.
  intros Hs Hk. unfold strip_fields. apply assign_Ok.
  unfold py_getitem. rewrite Hs. unfold stream_of.
  cbn [mbind result_bind py_iter].
  rewrite (mapM_Ok_fmap _ (λ v, PList (without_labels k (items v)))).
  - cbn [mbind result_bind]. rewrite result_ret_Ok. do 2 f_equal.
    rewrite <- !list_fmap_compose. by apply list_fmap_ext.
  - apply Forall_fmap, Forall_forall. intros r _. simpl. by apply py_slice_without.
Qed.

Lemma take_fields_Ok `{Impl : DataProcessorImpl} (data_name : string)
    (k : nat) (fields : list string) (i : nat) (data : sample)
    (rows : list (list pyval)) :
  data !! data_name = Some (stream_of rows) →
  data_name ∉ fields →
  Forall (λ r, (k ≤ length r)%nat) rows →
  (i + length fields ≤ k)%nat →
  for_each (enumerate_from i fields) (λ p, take_field data_name k p.1 p.2) data
  = Returned (unpacked k rows data (enumerate_from i fields)).
Proof.
  revert i data. induction fields as [|f fields IH]; intros i data Hs Hnot Hrows Hi.
  { done. }
  apply not_elem_of_cons in Hnot as [Hne Hnot]. simpl in Hi.
  simpl. unfold seq_stmt. rewrite (take_field_Ok _ _ _ _ _ rows) by (done || lia).
  rewrite IH; [done| |done..|lia]. by rewrite lookup_insert_ne.
Qed.

(** One round of the loop of [remove_label_fields_from_data]: the columns of
    the stream are stored under the field names and cut off the records. *)
Lemma remove_one `{Impl : DataProcessorImpl} (data_name : string)
    (fields : list string) (data : sample) (rows : list (list pyval)) :
  data !! data_name = Some (stream_of rows) →
  data_name ∉ fields →
  Forall (λ r, (length fields ≤ length r)%nat) rows →
  (1 ≤ length fields)%nat →
  seq_stmt
    (for_each (enumerate fields) (λ p, take_field data_name (length fields) p.1 p.2))
    (strip_fields data_name (length fields)) data
  = Returned (<[data_name := stream_of (without_labels (length fields) <$> rows)]>
                (unpacked (length fields) rows data (enumerate fields))).
Proof.
  intros Hs Hnot Hrows Hk. unfold seq_stmt, enumerate.
  rewrite (take_fields_Ok _ _ _ _ _ rows) by (done || lia).
  apply strip_fields_Ok; [|done].
  rewrite unpacked_lookup_ne; [done|]. by rewrite enumerate_from_snd.
Qed.

(** ** The round trip *)

Section round_trip.
Context `{Impl : DataProcessorImpl}.

(** Without label fields the loops of [add_label_fields_to_data] do
    nothing, as the early [return] does. *)
Lemma add_label_fields_loop (self : DataProcessor) (data : sample) :
  add_label_fields_to_data self data
  = for_each (data_fields self) (λ dn,
      if_in dn (for_each (default [] (label_fields (params self)))
                  (λ field, add_field dn field))) data.
Proof.
  unfold add_label_fields_to_data. destruct (label_fields (params self)); [done|].
  simpl. induction (data_fields self) as [|dn dns IH]; simpl; [done|].
  unfold seq_stmt, if_in. by case_decide.
Qed.

(** In the canonical format, a stream that passes [check] is stored back
    as it is. *)
Lemma convert_loop_id (self : DataProcessor) (dns : list string)
    (image_shape : list nat) (direction : string) (data : sample) :
  format (params self) = "albumentations" →
  (∀ dn v, dn ∈ dns → data !! dn = Some v → check v image_shape = Ok ()) →
  for_each dns (λ data_name,
    if_in data_name
      (assign data_name (λ data,
         stream ← py_getitem data data_name;
         check_and_convert self stream image_shape direction))) data
  = Returned data.
Proof.
  intros Hfmt. induction dns as [|dn dns IH]; intros Hcheck; simpl; [done|].
  unfold seq_stmt. destruct (data !! dn) as [v|] eqn:Hv.
  - rewrite (if_in_present _ _ _ _ Hv). rewrite (assign_Ok _ _ _ v).
    + rewrite insert_id by done. apply IH. intros dn' v' Hin. apply Hcheck. by right.
    + unfold py_getitem. rewrite Hv. cbn [mbind result_bind].
      unfold check_and_convert. rewrite decide_True by done.
      rewrite (Hcheck dn v); [done|by left|done].
  - rewrite (if_in_absent _ _ _ Hv). apply IH.
    intros dn' v' Hin. apply Hcheck. by right.
Qed.

(** The first loop of [postprocess], when [filter] keeps every record and
    the format is canonical. *)
Lemma filter_loop_id (self : DataProcessor) (dns : list string)
    (image_shape : list nat) (data : sample) :
  format (params self) = "albumentations" →
  (∀ dn v, dn ∈ dns → data !! dn = Some v →
     check v image_shape = Ok () ∧ filter v image_shape = Ok v) →
  for_each dns (λ data_name,
    if_in data_name
      (seq_stmt
         (assign data_name (λ data,
            stream ← py_getitem data data_name;
            filter stream image_shape))
         (assign data_name (λ data,
            stream ← py_getitem data data_name;
            check_and_convert self stream image_shape "from")))) data
  = Returned data.
Proof.
  intros Hfmt. induction dns as [|dn dns IH]; intros Hok; simpl; [done|].
  unfold seq_stmt at 1. destruct (data !! dn) as [v|] eqn:Hv.
  - rewrite (if_in_present _ _ _ _ Hv).
    destruct (Hok dn v) as [Hcheck Hfilter]; [by left|done|].
    unfold seq_stmt at 1. rewrite (assign_Ok _ _ _ v).
    + rewrite insert_id by done. rewrite (assign_Ok _ _ _ v).
      * rewrite insert_id by done. apply IH.
        intros dn' v' Hin. apply Hok. by right.
      * unfold py_getitem. rewrite Hv. cbn [mbind result_bind].
        unfold check_and_convert. rewrite decide_True by done.
        by rewrite Hcheck.
    + unfold py_getitem. rewrite Hv. by cbn [mbind result_bind].
  - rewrite (if_in_absent _ _ _ Hv). apply IH.
    intros dn' v' Hin. apply Hok. by right.
Qed.

Lemma Forall_columns (fields : list string) (data : sample)
    (recs : list (list pyval)) :
  Forall (λ f, ∃ col, data !! f = Some (PList col) ∧ length col = length recs)
         fields →
  Forall (λ col, length col = length recs) (column data <$> fields).
Proof.
  intros H. apply Forall_fmap. eapply Forall_impl; [exact H|].
  intros f (col & Hf & Hlen). simpl. unfold column. by rewrite Hf.
Qed.

(** The loop of [remove_label_fields_from_data] over a sample in that
    state: every stream loses its labels and nothing else changes, the
    columns being stored with the values they already have. *)
Lemma remove_loop_restores (dns fields : list string) (data : sample) :
  (1 ≤ length fields)%nat →
  NoDup dns →
  (∀ f, f ∈ fields → f ∉ dns) →
  packed_state dns fields data →
  ∃ data2,
    for_each dns (λ data_name,
      if_in data_name
        (seq_stmt
           (for_each (enumerate fields) (λ p,
              take_field data_name (length fields) p.1 p.2))
           (strip_fields data_name (length fields)))) data
    = Returned data2 ∧
    (∀ key, key ∉ dns → data2 !! key = data !! key) ∧
    (∀ dn, dn ∈ dns → data2 !! dn = stripped (length fields) <$> data !! dn).
Proof.
  intros Hk. revert data.
  induction dns as [|a dns IH]; intros data Hnd Hdisj Hst; simpl.
  { exists data. split_and!; [done..|]. intros dn Hdn. by apply elem_of_nil in Hdn. }
  apply NoDup_cons in Hnd as [Ha Hnd]. unfold seq_stmt at 1.
  assert (Hdisj' : ∀ f, f ∈ fields → f ∉ dns).
  { intros f Hf Hin. apply (Hdisj f Hf). by right. }
  assert (Hane : a ∉ fields).
  { intros Hin. apply (Hdisj a Hin). by left. }
  destruct (data !! a) as [v|] eqn:Hv.
  - destruct (Hst a v) as (recs & -> & Hcols); [by left|done|].
    pose proof (Forall_columns _ _ _ Hcols) as Hlens.
    rewrite (if_in_present _ _ _ _ Hv).
    rewrite (remove_one a fields data _ Hv Hane); [| |done].
    2:{ pose proof (add_columns_long _ _ Hlens) as Hlong.
        by rewrite length_fmap in Hlong. }
    rewrite unpacked_id.
    2:{ intros j f [_ Hf]%enumerate_from_elem_of.
        rewrite Nat.sub_0_r in Hf.
        pose proof (label_at_add_columns (column data <$> fields) recs j
                      (column data f) Hlens) as Hcol.
        rewrite length_fmap in Hcol. rewrite Hcol.
        - eapply Forall_forall in Hcols as (col & Hlook & _);
            [|by eapply list_elem_of_lookup_2].
          unfold column. by rewrite Hlook.
        - by rewrite list_lookup_fmap, Hf. }
    pose proof (without_labels_add_columns (column data <$> fields) recs Hlens)
      as Hstrip.
    rewrite length_fmap in Hstrip. rewrite Hstrip.
    set (data' := <[a := stream_of recs]> data).
    assert (Hcol' : column data' <$> fields = column data <$> fields).
    { apply column_fmap_ext. intros f Hf. unfold data'.
      rewrite lookup_insert_ne; [done|]. by intros ->. }
    destruct (IH data') as (data2 & Hrun & Hframe & Hdone); [done..| |].
    { intros dn v Hdn Hlook. unfold data' in Hlook.
      rewrite lookup_insert_ne in Hlook by (by intros ->).
      destruct (Hst dn v) as (recs' & -> & Hcols'); [by right|done|].
      exists recs'. rewrite Hcol'. split; [done|].
      eapply Forall_impl; [apply Forall_and; split; [exact Hcols'|]|].
      + apply Forall_forall. intros f' Hf'. exact Hf'.
      + simpl. intros f' [(col' & Hf' & Hlen') Hin]. exists col'. split; [|done].
        unfold data'. rewrite lookup_insert_ne; [done|]. by intros ->. }
    exists data2. split_and!; [done| |].
    + intros key Hkey. apply not_elem_of_cons in Hkey as [Hka Hkey].
      rewrite Hframe by done. unfold data'. by rewrite lookup_insert_ne.
    + intros dn [->|Hdn]%elem_of_cons.
      * rewrite Hframe by done. unfold data'. rewrite lookup_insert_eq, Hv. simpl.
        unfold stripped. rewrite records_stream_of. by rewrite Hstrip.
      * rewrite Hdone by done. unfold data'.
        rewrite lookup_insert_ne; [done|]. by intros ->.
  - rewrite (if_in_absent _ _ _ Hv).
    destruct (IH data) as (data2 & Hrun & Hframe & Hdone); [done..| |].
    { intros dn v Hdn Hlook. apply (Hst dn v); [by right|done]. }
    exists data2. split_and!; [done| |].
    + intros key Hkey. apply not_elem_of_cons in Hkey as [Hka Hkey]. by apply Hframe.
    + intros dn [->|Hdn]%elem_of_cons; [|by apply Hdone].
      rewrite Hframe by done. by rewrite Hv.
Qed.

(** The loop of [remove_label_fields_from_data] over a sample whose streams
    hold records with the columns [g] names packed at their end, whatever the
    sample holds under the field names: every stream loses its labels, and
    when some stream is in the sample every field gets its column. *)
Lemma remove_loop_redistributes (dns fields : list string)
    (g : string → list pyval) (mid : sample) :
  (1 ≤ length fields)%nat →
  NoDup dns →
  (∀ f, f ∈ fields → f ∉ dns) →
  (∀ dn v, dn ∈ dns → mid !! dn = Some v →
     ∃ recs, v = stream_of (add_columns recs (g <$> fields)) ∧
             Forall (λ f, length (g f) = length recs) fields) →
  ∃ data2,
    for_each dns (λ data_name,
      if_in data_name
        (seq_stmt
           (for_each (enumerate fields) (λ p,
              take_field data_name (length fields) p.1 p.2))
           (strip_fields data_name (length fields)))) mid
    = Returned data2 ∧
    (∀ dn, dn ∈ dns → data2 !! dn = stripped (length fields) <$> mid !! dn) ∧
    (∀ f, f ∈ fields → (∃ dn, dn ∈ dns ∧ is_Some (mid !! dn)) →
       data2 !! f = Some (PList (g f))) ∧
    (∀ key, key ∉ dns → key ∉ fields → data2 !! key = mid !! key) ∧
    ((∀ dn, dn ∈ dns → mid !! dn = None) → data2 = mid).
Proof.
  intros Hk Hnd Hdisj. induction dns as [|a dns IH]; intros Hst.
  { exists mid. split_and!; [done| |by intros f _ (dn & Hdn%elem_of_nil & _)|done..].
    intros dn Hdn. by apply elem_of_nil in Hdn. }
  apply NoDup_cons in Hnd as [Ha Hnd]. cbn [for_each]. unfold seq_stmt at 1.
  assert (Hdisj' : ∀ f, f ∈ fields → f ∉ dns).
  { intros f Hf Hin. apply (Hdisj f Hf). by right. }
  assert (Hane : a ∉ fields).
  { intros Hin. apply (Hdisj a Hin). by left. }
  destruct (mid !! a) as [v|] eqn:Hv.
  - destruct (Hst a v) as (recs & -> & Hlen); [by left|done|].
    assert (Hlens : Forall (λ col, length col = length recs) (g <$> fields)).
    { by apply Forall_fmap. }
    set (rows := add_columns recs (g <$> fields)) in *.
    assert (Hlong : Forall (λ r, (length fields ≤ length r)%nat) rows).
    { pose proof (add_columns_long _ _ Hlens) as Hlong.
      by rewrite length_fmap in Hlong. }
    rewrite (if_in_present _ _ _ _ Hv).
    rewrite (remove_one a fields mid rows Hv Hane Hlong Hk).
    assert (Hstrip : without_labels (length fields) <$> rows = recs).
    { pose proof (without_labels_add_columns (g <$> fields) recs Hlens) as H.
      by rewrite length_fmap in H. }
    rewrite Hstrip.
    set (mid1 := <[a := stream_of recs]>
                   (unpacked (length fields) rows mid (enumerate fields))).
    assert (Hfield : ∀ f, f ∈ fields → mid1 !! f = Some (PList (g f))).
    { intros f Hf. unfold mid1. rewrite lookup_insert_ne by (by intros ->).
      apply unpacked_fields_lookup.
      - intros j f' [_ Hj]%enumerate_from_elem_of. rewrite Nat.sub_0_r in Hj.
        pose proof (label_at_add_columns (g <$> fields) recs j (g f') Hlens) as Hcol.
        rewrite length_fmap in Hcol. apply Hcol.
        by rewrite list_lookup_fmap, Hj.
      - unfold enumerate. by rewrite enumerate_from_snd. }
    assert (Hother : ∀ key, key ≠ a → key ∉ fields → mid1 !! key = mid !! key).
    { intros key Hne Hnf. unfold mid1. rewrite lookup_insert_ne by done.
      apply unpacked_lookup_ne. unfold enumerate. by rewrite enumerate_from_snd. }
    assert (Hcol1 : column mid1 <$> fields = g <$> fields).
    { apply list_fmap_ext. intros i f Hf. unfold column.
      rewrite Hfield; [done|]. by eapply list_elem_of_lookup_2. }
    destruct (remove_loop_restores dns fields mid1 Hk Hnd Hdisj')
      as (data2 & Hrun & Hframe & Hdone).
    { intros dn v Hdn Hlook.
      rewrite Hother in Hlook; [|by intros ->|by intros Hin; apply (Hdisj' dn)].
      destruct (Hst dn v) as (recs' & -> & Hlen'); [by right|done|].
      exists recs'. rewrite Hcol1. split; [done|].
      apply Forall_forall. intros f Hf. exists (g f). split; [by apply Hfield|].
      eapply Forall_forall in Hlen'; [exact Hlen'|done]. }
    exists data2. split_and!; [done| | | |].
    + intros dn [->|Hdn]%elem_of_cons.
      * rewrite Hframe by done. unfold mid1. rewrite lookup_insert_eq, Hv. simpl.
        unfold stripped. rewrite records_stream_of. by rewrite Hstrip.
      * rewrite Hdone by done.
        rewrite Hother; [done|by intros ->|by intros Hin; apply (Hdisj' dn)].
    + intros f Hf _. rewrite Hframe by (by apply Hdisj'). by apply Hfield.
    + intros key [Hka Hkey]%not_elem_of_cons Hnf.
      rewrite Hframe by done. by apply Hother.
    + intros Habs. rewrite Habs in Hv; [done|by left].
  - rewrite (if_in_absent _ _ _ Hv).
    destruct IH as (data2 & Hrun & Hdone & Hfields & Hframe & Hnone); [done..| |].
    { intros dn v Hdn Hlook. apply (Hst dn v); [by right|done]. }
    exists data2. split_and!; [done| | | |].
    + intros dn [->|Hdn]%elem_of_cons; [|by apply Hdone].
      rewrite Hv. simpl. rewrite Hframe; [done..|].
      intros Hin. by apply (Hdisj a Hin); left.
    + intros f Hf (dn & Hdn & Hsome). apply Hfields; [done|].
      exists dn. split; [|done].
      apply elem_of_cons in Hdn as [->|Hdn]; [|done].
      rewrite Hv in Hsome. by destruct Hsome.
    + intros key [Hka Hkey]%not_elem_of_cons Hnf. by apply Hframe.
    + intros Habs. apply Hnone. intros dn Hdn. apply Habs. by right.
Qed.

End round_trip.

Section label_passes.
Context `{Impl : DataProcessorImpl}.

Lemma stripped_packed (fields : list string) (data : sample)
    (recs : list (list pyval)) :
  Forall (λ f, ∃ col, data !! f = Some (PList col) ∧ length col = length recs)
         fields →
  stripped (length fields) (packed fields data (stream_of recs)) = stream_of recs.
Proof.
  intros Hcols. unfold stripped, packed. rewrite !records_stream_of.
  pose proof (without_labels_add_columns (column data <$> fields) recs
                (Forall_columns _ _ _ Hcols)) as H.
  rewrite length_fmap in H. by rewrite H.
Qed.

Lemma packed_nil (data : sample) (recs : list (list pyval)) :
  packed [] data (stream_of recs) = stream_of recs.
Proof. unfold packed. by rewrite records_stream_of. Qed.

Lemma stripped_0 (recs : list (list pyval)) :
  stripped 0 (stream_of recs) = stream_of recs.
Proof.
  rewrite <- (packed_nil ∅ recs) at 1. by apply (stripped_packed [] ∅ recs).
Qed.

Lemma with_image_shape_Ok (k : list nat → stmt) (data : sample) (img : pyval)
    (image_shape : list nat) :
  data !! "image" = Some img → get_shape img = Ok image_shape →
  with_image_shape k data = k image_shape data.
Proof.
  intros Himg Hshape. unfold with_image_shape, py_getitem. rewrite Himg.
  cbn [mbind result_bind]. by rewrite Hshape.
Qed.

Lemma relisted_stream_of (fields : list string) (recs : list (list pyval)) :
  relisted fields (stream_of recs) = stream_of recs.
Proof. destruct fields; [done|]. unfold relisted. by rewrite seq_rows_stream_of. Qed.

Lemma repacked_nil_fmap (data : sample) (x : option pyval) :
  repacked [] data <$> x = x.
Proof. by destruct x. Qed.

Lemma relisted_nil_fmap (x : option pyval) : relisted [] <$> x = x.
Proof. by destruct x. Qed.

(** C1: take a sample whose declared format is the canonical one, whose
    streams are lists or tuples of records, each record a list or a tuple,
    and whose label columns are lists or tuples with one entry per record
    (under keys that are not stream names), and let [check] accept and
    [filter] keep whole every stream handed to them.  Then [preprocess]
    returns, with the label columns packed at the end of the records in
    declared order.  And [postprocess], run on any sample [mid] that holds
    those streams, whatever it holds under the label fields (the columns as
    they were, changed, or gone), returns with every stream holding its
    records with their original items only, in order, and, when the sample
    has a stream, with every label field holding the original values of its
    column in their original order: the values that
    [remove_label_fields_from_data] strips and stores are those that
    [add_label_fields_to_data] attached.  With label fields declared, streams,
    records and columns come back as lists, also where they were tuples; so
    for a sample of lists [postprocess] of the result of [preprocess] returns
    the sample as it was. *)
Theorem label_round_trip (self : DataProcessor) (data : sample) (img : pyval)
    (image_shape : list nat) :
  let fields := default [] (label_fields (params self)) in
  format (params self) = "albumentations" →
  NoDup (data_fields self) →
  (∀ f, f ∈ fields → f ∉ data_fields self) →
  sequences_match (data_fields self) fields data →
  data !! "image" = Some img →
  get_shape img = Ok image_shape →
  (∀ dn v, dn ∈ data_fields self →
     final_sample (add_label_fields_to_data self data) !! dn = Some v →
     check v image_shape = Ok () ∧ filter v image_shape = Ok v) →
  ∃ data1,
    preprocess self data = Returned data1 ∧
    (∀ dn, dn ∈ data_fields self →
       data1 !! dn = repacked fields data <$> data !! dn) ∧
    (∀ key, key ∉ data_fields self → data1 !! key = data !! key) ∧
    (∀ mid img',
       (∀ dn, dn ∈ data_fields self → mid !! dn = data1 !! dn) →
       mid !! "image" = Some img' → get_shape img' = Ok image_shape →
       ∃ data2,
         postprocess self mid = Returned data2 ∧
         (∀ dn, dn ∈ data_fields self →
            data2 !! dn = relisted fields <$> data !! dn) ∧
         (∀ f, f ∈ fields →
            (∃ dn, dn ∈ data_fields self ∧ is_Some (data !! dn)) →
            data2 !! f = Some (PList (labels_of data f))) ∧
         (∀ key, key ∉ data_fields self → key ∉ fields →
            data2 !! key = mid !! key) ∧
         ((∀ dn, dn ∈ data_fields self → data !! dn = None) → data2 = mid)) ∧
    (columns_match (data_fields self) fields data →
     postprocess self data1 = Returned data).
Proof.
  intros fields Hfmt Hnd Hdisj Hwf Himg Hshape Hok.
  destruct (add_loop_seq (data_fields self) fields data Hnd Hdisj Hwf)
    as (data1 & Hadd & Hframe & Hpack).
  rewrite add_label_fields_loop in Hok. fold fields in Hok.
  rewrite Hadd in Hok. simpl in Hok.
  assert (Himg1 : data1 !! "image" = Some img).
  { destruct (decide ("image" ∈ data_fields self)) as [Hin|Hnin].
    - destruct (Hwf "image" img Hin Himg) as [(ds & Hds & _) _].
      by destruct img.
    - by rewrite Hframe. }
  assert (Hpost : ∀ mid img',
    (∀ dn, dn ∈ data_fields self → mid !! dn = data1 !! dn) →
    mid !! "image" = Some img' → get_shape img' = Ok image_shape →
    ∃ data2,
      postprocess self mid = Returned data2 ∧
      (∀ dn, dn ∈ data_fields self →
         data2 !! dn = relisted fields <$> data !! dn) ∧
      (∀ f, f ∈ fields →
         (∃ dn, dn ∈ data_fields self ∧ is_Some (data !! dn)) →
         data2 !! f = Some (PList (labels_of data f))) ∧
      (∀ key, key ∉ data_fields self → key ∉ fields →
         data2 !! key = mid !! key) ∧
      ((∀ dn, dn ∈ data_fields self → data !! dn = None) → data2 = mid)).
  { intros mid img' Hmid Himg' Hshape'.
    unfold postprocess. rewrite (with_image_shape_Ok _ _ _ _ Himg' Hshape').
    rewrite (seq_stmt_Returned _ _ mid mid).
    2:{ apply filter_loop_id; [done|]. intros dn v Hdn Hv.
        apply (Hok dn v Hdn). by rewrite <- Hmid. }
    unfold remove_label_fields_from_data.
    assert (Hnone : fields = [] →
      ∃ data2, Returned mid = Returned data2 ∧
        (∀ dn, dn ∈ data_fields self →
           data2 !! dn = relisted fields <$> data !! dn) ∧
        (∀ f, f ∈ fields →
           (∃ dn, dn ∈ data_fields self ∧ is_Some (data !! dn)) →
           data2 !! f = Some (PList (labels_of data f))) ∧
        (∀ key, key ∉ data_fields self → key ∉ fields →
           data2 !! key = mid !! key) ∧
        ((∀ dn, dn ∈ data_fields self → data !! dn = None) → data2 = mid)).
    { intros Hnil. exists mid. rewrite Hnil in *. split_and!; [done| |  |done..].
      - intros dn Hdn. rewrite Hmid, Hpack by done.
        by rewrite repacked_nil_fmap, relisted_nil_fmap.
      - intros f Hf. by apply elem_of_nil in Hf. }
    assert (Hfields : label_fields (params self) = None ∧ fields = [] ∨
                      label_fields (params self) = Some fields).
    { unfold fields. destruct (label_fields (params self)); [by right|by left]. }
    destruct Hfields as [[-> Hnil]| ->]; [by apply Hnone|].
    destruct fields as [|f0 fields'] eqn:Hf; [by apply Hnone|].
    rewrite <- Hf in *. clear Hnone.
    assert (Hk : (1 ≤ length fields)%nat) by (rewrite Hf; simpl; lia).
    assert (Hpacked : ∀ v0, repacked fields data v0
              = stream_of (add_columns (seq_rows v0) (labels_of data <$> fields))).
    { intros v0. by rewrite Hf. }
    assert (Hrel : ∀ v0, relisted fields v0 = stream_of (seq_rows v0)).
    { intros v0. by rewrite Hf. }
    assert (Hlens : ∀ dn v0, dn ∈ data_fields self → data !! dn = Some v0 →
              Forall (λ f, length (labels_of data f) = length (seq_rows v0)) fields).
    { intros dn v0 Hdn Hv0. destruct (Hwf dn v0 Hdn Hv0) as [_ Hcols].
      eapply Forall_impl; [exact Hcols|]. intros f [_ Hfit]. simpl.
      unfold seq_rows. by rewrite length_fmap. }
    destruct (remove_loop_redistributes (data_fields self) fields (labels_of data)
                mid Hk Hnd Hdisj)
      as (data2 & Hrun & Hstrip & Hcols & Hother & Habsent).
    { intros dn v Hdn Hv. rewrite Hmid, Hpack in Hv by done.
      destruct (data !! dn) as [v0|] eqn:Hv0; [|done].
      injection Hv as <-. exists (seq_rows v0). split; [by apply Hpacked|].
      by apply (Hlens dn). }
    exists data2. split_and!; [done| | |done|].
    - intros dn Hdn. rewrite Hstrip, Hmid, Hpack by done.
      destruct (data !! dn) as [v0|] eqn:Hv0; [simpl|done]. f_equal.
      rewrite Hpacked, Hrel. unfold stripped. rewrite records_stream_of.
      pose proof (without_labels_add_columns (labels_of data <$> fields)
                    (seq_rows v0)) as Hw.
      rewrite length_fmap in Hw. rewrite Hw; [done|].
      apply Forall_fmap. by apply (Hlens dn).
    - intros f Hin (dn & Hdn & v0 & Hv0). apply Hcols; [done|].
      exists dn. split; [done|]. rewrite Hmid, Hpack, Hv0 by done. by eexists.
    - intros Hnone. apply Habsent. intros dn Hdn.
      by rewrite Hmid, Hpack, Hnone by done. }
  exists data1. split_and!; [|done..|].
  - unfold preprocess, seq_stmt. rewrite add_label_fields_loop. fold fields.
    rewrite Hadd. rewrite (with_image_shape_Ok _ _ _ _ Himg1 Hshape).
    apply convert_loop_id; [done|]. intros dn v Hdn Hv. by apply (Hok dn v).
  - intros Hcm.
    destruct (Hpost data1 img) as (data2 & Hrun & Hstreams & Hcols & Hother & Habsent);
      [done..|].
    rewrite Hrun. f_equal. apply map_eq. intros key.
    destruct (decide (key ∈ data_fields self)) as [Hin|Hnin].
    { rewrite Hstreams by done. destruct (data !! key) as [v|] eqn:Hv; [|done].
      destruct (Hcm key v Hin Hv) as (recs & -> & _). simpl.
      by rewrite relisted_stream_of. }
    destruct (decide (Exists (λ dn, is_Some (data !! dn)) (data_fields self)))
      as [Hsome|Hnone].
    + apply Exists_exists in Hsome as (dn & Hdn & v & Hv).
      destruct (decide (key ∈ fields)) as [Hf|Hnf].
      * rewrite Hcols; [|done|by exists dn; split; [|eexists]].
        destruct (Hcm dn v Hdn Hv) as (recs & _ & Hall).
        eapply Forall_forall in Hall as (col & Hkey & _); [|exact Hf].
        rewrite Hkey. unfold labels_of. by rewrite Hkey.
      * rewrite Hother by done. by apply Hframe.
    + rewrite Habsent; [by apply Hframe|].
      intros dn Hdn. destruct (data !! dn) as [v|] eqn:Hv; [|done].
      exfalso. apply Hnone. apply Exists_exists. exists dn. split; [done|].
      by eexists.
Qed.

(** C3 (amended): take a sample whose streams are lists or tuples of
    records, each record a list or a tuple, and whose label columns are lists
    or tuples (under keys that are not stream names), and in which some label
    column's length differs from the length of some stream.  Then
    [preprocess] raises the length-mismatch error for the first stream and
    label field that differ, in the order of the loops over [data_fields] and
    [label_fields]: every stream before that one fits every column, and that
    stream fits every column before that field.  The message names the two
    lengths.  When the error is raised, every stream before that one is
    rebuilt with all label columns attached, that stream is rebuilt with the
    columns of the fields before that field attached (and is as it was when
    there is none), and every other key, the label columns and the image
    among them, holds what it held.  So when the stream and the field that
    differ are the first stream of the sample and the first label field, the
    whole sample is as it was. *)
Theorem preprocess_length_mismatch (self : DataProcessor) (fields : list string)
    (data : sample) (dn0 f0 : string) (v0 : pyval) :
  label_fields (params self) = Some fields →
  NoDup (data_fields self) →
  (∀ f, f ∈ fields → f ∉ data_fields self) →
  (∀ dn v, dn ∈ data_fields self → data !! dn = Some v → is_stream v) →
  Forall (is_column data) fields →
  dn0 ∈ data_fields self → f0 ∈ fields →
  data !! dn0 = Some v0 →
  ¬ fits data v0 f0 →
  ∃ pre dn post fpre f fpost v data',
    data_fields self = pre ++ dn :: post ∧
    fields = fpre ++ f :: fpost ∧
    data !! dn = Some v ∧
    (∀ d w g, d ∈ pre → data !! d = Some w → g ∈ fields → fits data w g) ∧
    (∀ g, g ∈ fpre → fits data v g) ∧
    ¬ fits data v f ∧
    preprocess self data
    = Raised (ValueError (lengths_msg (length (entries v))
                                      (length (labels_of data f)))) data' ∧
    (∀ d, d ∈ pre → data' !! d = repacked fields data <$> data !! d) ∧
    data' !! dn = Some (repacked fpre data v) ∧
    (∀ key, key ∉ pre → key ≠ dn → data' !! key = data !! key) ∧
    (∀ pre0 post0 rest0,
       data_fields self = pre0 ++ dn0 :: post0 →
       Forall (λ d, data !! d = None) pre0 →
       fields = f0 :: rest0 →
       data' = data ∧ dn = dn0 ∧ f = f0).
Proof.
  intros Hlf Hnd Hdisj Htyped Hcols Hdn0 Hf0 Hlook0 Hbad0.
  set (bad := λ d, match data !! d with
                   | Some w => Exists (λ g, ¬ fits data w g) fields
                   | None => False
                   end).
  assert (Hdec : ∀ d, Decision (bad d)).
  { intros d. unfold bad. destruct (data !! d); apply _. }
  destruct (Exists_first bad (data_fields self))
    as (pre & dn & post & Hsplit & Hpre & Hdn).
  { apply Exists_exists. exists dn0. split; [done|]. unfold bad. rewrite Hlook0.
    apply Exists_exists. by exists f0. }
  unfold bad in Hdn. destruct (data !! dn) as [v|] eqn:Hv; [|done].
  destruct (Exists_first (λ g, ¬ fits data v g) fields)
    as (fpre & f & fpost & Hfsplit & Hfpre & Hf); [done|].
  assert (Hfits_pre : ∀ d w g, d ∈ pre → data !! d = Some w → g ∈ fields →
                        fits data w g).
  { intros d w g Hd Hw Hg. eapply Forall_forall in Hpre; [|exact Hd].
    unfold bad in Hpre. rewrite Hw in Hpre.
    destruct (decide (fits data w g)) as [|Hno]; [done|].
    exfalso. apply Hpre. apply Exists_exists. by exists g. }
  assert (Hfits_fpre : ∀ g, g ∈ fpre → fits data v g).
  { intros g Hg. eapply Forall_forall in Hfpre; [|exact Hg].
    by destruct (decide (fits data v g)). }
  assert (Hin_pre : ∀ d, d ∈ pre → d ∈ data_fields self).
  { intros d Hd. rewrite Hsplit. apply elem_of_app. by left. }
  assert (Hin_dn : dn ∈ data_fields self).
  { rewrite Hsplit. apply elem_of_app. right. by left. }
  assert (Hin_fpre : ∀ g, g ∈ fpre → g ∈ fields).
  { intros g Hg. rewrite Hfsplit. apply elem_of_app. by left. }
  assert (Hin_f : f ∈ fields).
  { rewrite Hfsplit. apply elem_of_app. right. by left. }
  destruct (add_loop_first_mismatch pre dn post fpre f fpost data v)
    as (data' & Hrun & Hpacked & Hhere & Hframe).
  - by rewrite <- Hsplit.
  - rewrite <- Hsplit, <- Hfsplit. exact Hdisj.
  - intros d w Hd Hw. split; [apply (Htyped d w); [by apply Hin_pre|done]|].
    rewrite <- Hfsplit. apply Forall_forall. intros g Hg. split.
    + eapply Forall_forall in Hcols; [exact Hcols|done].
    + by apply (Hfits_pre d).
  - done.
  - by apply (Htyped dn v).
  - apply Forall_forall. intros g Hg. split; [|by apply Hfits_fpre].
    eapply Forall_forall in Hcols; [exact Hcols|]. by apply Hin_fpre.
  - eapply Forall_forall in Hcols; [exact Hcols|done].
  - done.
  - rewrite <- Hsplit, <- Hfsplit in Hrun.
    exists pre, dn, post, fpre, f, fpost, v, data'.
    split_and!; try done.
    + unfold preprocess. apply seq_stmt_Raised.
      rewrite add_label_fields_loop, Hlf. exact Hrun.
    + by rewrite <- Hfsplit in Hpacked.
    + intros pre0 post0 rest0 Hsplit0 Habs Hfields0.
      destruct (first_split_unique pre pre0 post post0 dn dn0) as (-> & -> & ->).
      * by rewrite <- Hsplit.
      * intros Hin. eapply Forall_forall in Habs; [|exact Hin]. congruence.
      * intros Hin. apply Hbad0. by apply (Hfits_pre dn0).
      * assert (v = v0) as -> by congruence.
        assert (fpre = [] ∧ f = f0) as [-> ->].
        { destruct fpre as [|g fpre]; rewrite Hfields0 in Hfsplit;
            simpl in Hfsplit; injection Hfsplit as <- _; [done|].
          exfalso. apply Hbad0, Hfits_fpre. by left. }
        split; [|done]. apply map_eq. intros key.
        destruct (decide (key ∈ pre0)) as [Hin|Hnin].
        -- rewrite Hpacked by done.
           eapply Forall_forall in Habs; [|exact Hin]. by rewrite Habs.
        -- destruct (decide (key = dn0)) as [->|Hne].
           ++ by rewrite Hhere, Hlook0.
           ++ by apply Hframe.
Qed.

(** The first loop of [postprocess], when [filter] and the conversion back
    return for every stream of the sample: each stream of [dns] holds what
    they produced, and nothing else has changed. *)
Lemma filter_loop_Ok (self : DataProcessor) (dns : list string)
    (image_shape : list nat) (out : string → pyval) (data : sample) :
  NoDup dns →
  (∀ dn v, dn ∈ dns → data !! dn = Some v →
     ∃ v1, filter v image_shape = Ok v1 ∧
           check_and_convert self v1 image_shape "from" = Ok (out dn)) →
  ∃ data1,
    for_each dns (λ data_name,
      if_in data_name
        (seq_stmt
           (assign data_name (λ data,
              stream ← py_getitem data data_name;
              filter stream image_shape))
           (assign data_name (λ data,
              stream ← py_getitem data data_name;
              check_and_convert self stream image_shape "from")))) data
    = Returned data1 ∧
    (∀ key, key ∉ dns → data1 !! key = data !! key) ∧
    (∀ dn, dn ∈ dns → data1 !! dn = (λ _, out dn) <$> data !! dn).
Proof.
  revert data. induction dns as [|a dns IH]; intros data Hnd Hok; simpl.
  { exists data. split_and!; [done..|]. intros dn Hdn. by apply elem_of_nil in Hdn. }
  apply NoDup_cons in Hnd as [Ha Hnd].
  destruct (data !! a) as [v|] eqn:Hv.
  - destruct (Hok a v) as (v1 & Hfilter & Hconv); [by left|done|].
    set (data_a := <[a := out a]> data).
    assert (Hstep : if_in a
        (seq_stmt
           (assign a (λ data, stream ← py_getitem data a; filter stream image_shape))
           (assign a (λ data,
              stream ← py_getitem data a;
              check_and_convert self stream image_shape "from"))) data
        = Returned data_a).
    { rewrite (if_in_present _ _ _ _ Hv).
      rewrite (seq_stmt_Returned _ _ data (<[a := v1]> data)).
      - rewrite (assign_Ok _ _ _ (out a)).
        + unfold data_a. by rewrite insert_insert_eq.
        + unfold py_getitem. rewrite lookup_insert_eq. by cbn [mbind result_bind].
      - apply assign_Ok. unfold py_getitem. rewrite Hv. by cbn [mbind result_bind]. }
    rewrite (seq_stmt_Returned _ _ _ _ Hstep).
    destruct (IH data_a) as (data1 & Hrun & Hframe & Hout); [done| |].
    { intros dn v' Hdn Hlook. unfold data_a in Hlook.
      rewrite lookup_insert_ne in Hlook by (by intros ->).
      apply (Hok dn v'); [by right|done]. }
    exists data1. split_and!; [done| |].
    + intros key [Hka Hkey]%not_elem_of_cons. rewrite Hframe by done.
      unfold data_a. by rewrite lookup_insert_ne.
    + intros dn [->|Hdn]%elem_of_cons.
      * rewrite Hframe by done. unfold data_a. by rewrite lookup_insert_eq, Hv.
      * rewrite Hout by done. unfold data_a.
        rewrite lookup_insert_ne; [done|]. by intros ->.
  - rewrite (seq_stmt_Returned _ _ data data) by (by apply if_in_absent).
    destruct (IH data) as (data1 & Hrun & Hframe & Hout); [done| |].
    { intros dn v' Hdn Hlook. apply (Hok dn v'); [by right|done]. }
    exists data1. split_and!; [done| |].
    + intros key [Hka Hkey]%not_elem_of_cons. by apply Hframe.
    + intros dn [->|Hdn]%elem_of_cons; [|by apply Hout].
      rewrite Hframe by done. by rewrite Hv.
Qed.



End label_passes.

(** ** The theorems at concrete samples *)

(** Closes a decidable goal by evaluating its decision procedure. *)
Ltac by_evaluation :=
  match goal with
  | |- ?P => apply (bool_decide_unpack P); vm_compute; exact I
  end.

Lemma label_round_trip_witness :
  (∃ data1 data2,
     preprocess labelled_processor tuple_sample = Returned data1 ∧
     data1 !! "bboxes"
     = Some (PList [PList [PInt 1; PInt 2; PInt 3; PInt 4; PStr "a"; PInt 9];
                    PList [PInt 5; PInt 6; PInt 7; PInt 8; PStr "b"; PInt 8]]) ∧
     postprocess labelled_processor (delete "labels" (delete "scores" data1))
     = Returned data2 ∧
     data2 !! "bboxes" = Some two_boxes ∧
     data2 !! "labels" = Some (PList [PStr "a"; PStr "b"]) ∧
     data2 !! "scores" = Some (ints [9; 8]%Z)) ∧
  (∃ data1,
     preprocess labelled_processor matching_sample = Returned data1 ∧
     postprocess labelled_processor data1 = Returned matching_sample).
Proof.
  split.
  - destruct (label_round_trip labelled_processor tuple_sample array_image
                [100; 200]%nat) as (data1 & Hpre & Hpack & Hframe & Hpost & _).
    + reflexivity.
    + by_evaluation.
    + intros f Hf Hin. apply list_elem_of_singleton in Hin. subst f.
      revert Hf. by_evaluation.
    + intros dn v Hdn Hv. apply list_elem_of_singleton in Hdn. subst dn.
      vm_compute in Hv. injection Hv as <-. split.
      * eexists. split; [reflexivity|]. repeat constructor; by eexists.
      * repeat (apply Forall_cons; split;
                  [split; [eexists; split; [reflexivity|by eexists]|reflexivity]|]).
        by apply Forall_nil.
    + reflexivity.
    + reflexivity.
    + intros dn v Hdn Hv. apply list_elem_of_singleton in Hdn. subst dn.
      vm_compute in Hv. injection Hv as <-. split; reflexivity.
    + destruct (Hpost (delete "labels" (delete "scores" data1)) array_image)
        as (data2 & Hrun & Hstreams & Hcols & _).
      * intros dn Hdn. apply list_elem_of_singleton in Hdn. subst dn.
        by rewrite !lookup_delete_ne.
      * rewrite !lookup_delete_ne by done. rewrite Hframe; [reflexivity|].
        by_evaluation.
      * reflexivity.
      * exists data1, data2. split_and!; [exact Hpre| |exact Hrun| | |].
        -- rewrite (Hpack "bboxes") by (by left). reflexivity.
        -- rewrite (Hstreams "bboxes") by (by left). reflexivity.
        -- rewrite (Hcols "labels"); [reflexivity|by left|].
           exists "bboxes". split; [by left|by eexists].
        -- rewrite (Hcols "scores"); [reflexivity|by right; left|].
           exists "bboxes". split; [by left|by eexists].
  - destruct (label_round_trip labelled_processor matching_sample array_image
                [100; 200]%nat) as (data1 & Hpre & _ & _ & _ & Hpost).
    + reflexivity.
    + by_evaluation.
    + intros f Hf Hin. apply list_elem_of_singleton in Hin. subst f.
      revert Hf. by_evaluation.
    + intros dn v Hdn Hv. apply list_elem_of_singleton in Hdn. subst dn.
      vm_compute in Hv. injection Hv as <-. split.
      * eexists. split; [reflexivity|]. repeat constructor; by eexists.
      * repeat (apply Forall_cons; split;
                  [split; [eexists; split; [reflexivity|by eexists]|reflexivity]|]).
        by apply Forall_nil.
    + reflexivity.
    + reflexivity.
    + intros dn v Hdn Hv. apply list_elem_of_singleton in Hdn. subst dn.
      vm_compute in Hv. injection Hv as <-. split; reflexivity.
    + exists data1. split; [exact Hpre|]. apply Hpost.
      intros dn v Hdn Hv. apply list_elem_of_singleton in Hdn. subst dn.
      vm_compute in Hv. injection Hv as <-.
      exists [[PInt 1; PInt 2; PInt 3; PInt 4]; [PInt 5; PInt 6; PInt 7; PInt 8]].
      split; [reflexivity|].
      repeat constructor; eexists; split; reflexivity.
Defined.



(** C3, as the specification states it, fails when the pair that differs is
    not the first one looked at: with the label fields "labels" and "scores"
    and a column "scores" that is too short, the error leaves [preprocess]
    after the stream "bboxes" was rebuilt with the labels attached. *)
Lemma preprocess_mismatch_after_rebuild :
  ¬ (∀ (Impl : DataProcessorImpl) (self : DataProcessor) (fields : list string)
       (data : sample) (dn f : string) (recs : list (list pyval)),
       label_fields (params self) = Some fields →
       dn ∈ data_fields self → f ∈ fields →
       data !! dn = Some (stream_of recs) →
       length (column data f) ≠ length recs →
       ∃ n m, @preprocess Impl self data
              = Raised (ValueError (lengths_msg n m)) data).
Proof.
  intros H.
  destruct (H demo_impl labelled_processor ["labels"; "scores"]
              short_scores_sample "bboxes" "scores"
              [[PInt 1; PInt 2; PInt 3; PInt 4]; [PInt 5; PInt 6; PInt 7; PInt 8]])
    as (n & m & Hrun); try reflexivity; try by_evaluation.
  assert (Hsame : final_sample (preprocess labelled_processor short_scores_sample)
                    !! "bboxes" = short_scores_sample !! "bboxes").
  { by rewrite Hrun. }
  vm_compute in Hsame. discriminate Hsame.
Qed.

Lemma preprocess_length_mismatch_witness :
  ∃ data',
    preprocess labelled_processor short_scores_sample
    = Raised (ValueError
        "The lengths of bboxes and labels do not match. Got 2 and 1 respectively.")
        data' ∧
    data' !! "bboxes"
    = Some (PList [PList [PInt 1; PInt 2; PInt 3; PInt 4; PStr "a"];
                   PList [PInt 5; PInt 6; PInt 7; PInt 8; PStr "b"]]) ∧
    data' !! "labels" = short_scores_sample !! "labels" ∧
    data' !! "scores" = short_scores_sample !! "scores".
Proof.
  destruct (preprocess_length_mismatch labelled_processor ["labels"; "scores"]
              short_scores_sample "bboxes" "scores" two_boxes)
    as (pre & dn & post & fpre & f & fpost & v & data' & Hsplit & Hfsplit & Hv &
        _ & Hfpre & Hf & Hrun & _ & Hhere & Hframe & _).
  - reflexivity.
  - apply init_NoDup.
  - intros f Hf Hin. apply list_elem_of_singleton in Hin. subst f.
    revert Hf. by_evaluation.
  - intros dn v Hdn Hv. apply list_elem_of_singleton in Hdn. subst dn.
    vm_compute in Hv. injection Hv as <-.
    eexists. split; [reflexivity|]. repeat constructor; by eexists.
  - repeat (apply Forall_cons; split; [eexists; split; [reflexivity|by eexists]|]).
    by apply Forall_nil.
  - by_evaluation.
  - by_evaluation.
  - reflexivity.
  - by_evaluation.
  - change (["bboxes"] = pre ++ dn :: post) in Hsplit.
    assert (pre = [] ∧ dn = "bboxes") as [-> ->].
    { destruct pre as [|p [|q pre]]; simpl in Hsplit; by simplify_eq. }
    vm_compute in Hv. injection Hv as <-.
    assert (fpre = ["labels"] ∧ f = "scores") as [-> ->].
    { destruct fpre as [|g1 [|g2 [|g3 fpre]]]; simpl in Hfsplit; by simplify_eq. }
    exists data'. split_and!; [exact Hrun| | |].
    + rewrite Hhere. reflexivity.
    + apply Hframe; [apply not_elem_of_nil|done].
    + apply Hframe; [apply not_elem_of_nil|done].
Defined.

Lemma add_targets_spec_witness :
  data_fields (add_targets (init (canonical_params None) None)
                 [("more", "bboxes"); ("points", "keypoints"); ("bboxes", "bboxes")])
  = ["bboxes"; "more"].
Proof.
  destruct (add_targets_spec (init (canonical_params None) None)
              [("more", "bboxes"); ("points", "keypoints"); ("bboxes", "bboxes")])
    as [Heq _].
  - by_evaluation.
  - rewrite Heq. reflexivity.
Defined.

Lemma check_and_convert_canonical_witness :
  check_and_convert labelled_processor two_boxes [100; 200]%nat "to" = Ok two_boxes ∧
  check_and_convert labelled_processor two_boxes [100; 200]%nat "from" = Ok two_boxes ∧
  check_and_convert labelled_processor (ints [1; 2]%Z) [100; 200]%nat "from"
    = Err (ValueError "not a record").
Proof.
  destruct (check_and_convert_canonical labelled_processor two_boxes
              [100; 200]%nat eq_refl) as (Hto & Hfrom & _).
  destruct (check_and_convert_canonical labelled_processor (ints [1; 2]%Z)
              [100; 200]%nat eq_refl) as (_ & Hbad & _).
  rewrite Hto, Hfrom, Hbad. by repeat split.
Defined.

Lemma check_and_convert_direction_witness :
  check_and_convert labelled_processor two_boxes [100; 200]%nat "sideways"
    = Ok two_boxes ∧
  check_and_convert (init {| format := "coco"; label_fields := None |} None)
      two_boxes [100; 200]%nat "sideways"
    = Err (ValueError "Invalid direction. Must be `to` or `from`. Got `sideways`").
Proof.
  split.
  - rewrite (proj1 (check_and_convert_direction labelled_processor two_boxes
                      [100; 200]%nat "sideways") eq_refl).
    reflexivity.
  - by rewrite (proj2 (check_and_convert_direction
                         (init {| format := "coco"; label_fields := None |} None)
                         two_boxes [100; 200]%nat "sideways")).
Defined.

(** * Further properties of the module *)

(** ** [to_tuple] on pairs, with [low], with [bias] *)

(** X1: a pair of ints is returned sorted, smaller first, whatever [low] is;
    so the order of the pair does not matter, and a sorted result given back
    to [to_tuple] comes out as it is. *)
Theorem to_tuple_pair_sorted (a b : Z) (low : arg) :
  to_tuple (ASeq [IInt a; IInt b]) low ANone
    = Ok (IInt (Z.min a b), IInt (Z.max a b)) ∧
  to_tuple (ASeq [IInt b; IInt a]) low ANone
    = to_tuple (ASeq [IInt a; IInt b]) low ANone ∧
  to_tuple (ASeq [IInt (Z.min a b); IInt (Z.max a b)]) low ANone
    = Ok (IInt (Z.min a b), IInt (Z.max a b)).
Proof.
  assert (Hsorted : ∀ x y, to_tuple (ASeq [IInt x; IInt y]) low ANone
                           = Ok (IInt (Z.min x y), IInt (Z.max x y))).
  { intros x y. unfold to_tuple. rewrite andb_false_r.
    unfold derive_min_max. simpl.
    destruct (Z.ltb_spec y x), (Z.ltb_spec x y); simpl;
      rewrite result_ret_Ok; do 3 f_equal; lia. }
  split_and!.
  - apply Hsorted.
  - rewrite !Hsorted. do 3 f_equal; lia.
  - rewrite Hsorted. do 3 f_equal; lia.
Qed.

(** X2: with a scalar [param] and a scalar [low], the result is the two
    numbers sorted, so [param] and [low] can be exchanged. *)
Theorem to_tuple_scalar_low_sorted (s l : Z) :
  to_tuple (AItem (IInt s)) (AItem (IInt l)) ANone
    = Ok (IInt (Z.min s l), IInt (Z.max s l)) ∧
  to_tuple (AItem (IInt l)) (AItem (IInt s)) ANone
    = to_tuple (AItem (IInt s)) (AItem (IInt l)) ANone.
Proof.
  assert (Hsorted : ∀ x y, to_tuple (AItem (IInt x)) (AItem (IInt y)) ANone
                           = Ok (IInt (Z.min x y), IInt (Z.max x y))).
  { intros x y. unfold to_tuple, derive_min_max. simpl.
    destruct (Z.ltb_spec y x); simpl; rewrite result_ret_Ok;
      do 3 f_equal; lia. }
  split; [apply Hsorted|]. rewrite !Hsorted. do 3 f_equal; lia.
Qed.

(** X3: a [low] that is not a scalar (a pair, a string) is not an error: with
    no [bias] it is passed over, and the result is the one for no [low] at
    all; for a scalar [param] that is the symmetric pair. *)
Theorem to_tuple_low_not_scalar (param low : arg) :
  is_scalar low = false →
  to_tuple param low ANone = to_tuple param ANone ANone ∧
  (∀ s, param = AItem (IInt s) →
     to_tuple param low ANone = Ok (IInt (- s), IInt s)).
Proof.
  intros Hlow.
  assert (Hd : derive_min_max param low = derive_min_max param ANone).
  { unfold derive_min_max. destruct (as_Sequence param); [done|].
    destruct param as [|[s|s]|xs]; try done.
    by destruct low as [|[l|l]|ls]. }
  unfold to_tuple. rewrite !andb_false_r, Hd. split; [done|].
  by intros s ->.
Qed.

Lemma to_tuple_low_not_scalar_witness :
  to_tuple (AItem (IInt 3)) (ASeq [IInt 1; IInt 2]) ANone = Ok (IInt (-3), IInt 3).
Proof.
  by apply (to_tuple_low_not_scalar (AItem (IInt 3)) (ASeq [IInt 1; IInt 2]) eq_refl).
Defined.

(** X4: an int [bias] moves both ends of the range by the same amount: where
    [to_tuple] without [low] and [bias] returns a pair of ints, with [bias]
    it returns that pair with [bias] added to each end. *)
Theorem to_tuple_bias_shift (param : arg) (b x y : Z) :
  to_tuple param ANone ANone = Ok (IInt x, IInt y) →
  to_tuple param ANone (AItem (IInt b)) = Ok (IInt (b + x), IInt (b + y)).
Proof.
  unfold to_tuple. simpl.
  destruct (derive_min_max param ANone) as [[mn mx]|e]; [|discriminate].
  simpl. rewrite result_ret_Ok. by intros [= -> ->].
Qed.

Lemma to_tuple_bias_shift_witness :
  to_tuple (ASeq [IInt 3; IInt 1]) ANone (AItem (IInt 10)) = Ok (IInt 11, IInt 13).
Proof.
  exact (to_tuple_bias_shift (ASeq [IInt 3; IInt 1]) 10 1 3 eq_refl).
Defined.

(** ** [get_shape] on images of any rank *)

(** X5: [get_shape] takes an array or a tensor of any rank and never raises
    on one: the result has two entries when the image has at least two
    dimensions and is the whole shape, shorter than a (height, width) pair,
    when it has fewer; the dimensions of a tensor before its last two do not
    change the result. *)
Theorem get_shape_rank :
  (∀ shape, ∃ sh, get_shape (PArray shape) = Ok sh ∧
     length sh = (2 `min` length shape)%nat ∧
     ((length shape < 2)%nat → sh = shape)) ∧
  (∀ shape, ∃ sh, get_shape (PTensor shape) = Ok sh ∧
     length sh = (2 `min` length shape)%nat ∧
     ((length shape < 2)%nat → sh = shape)) ∧
  (∀ batch shape, (2 ≤ length shape)%nat →
     get_shape (PTensor (batch ++ shape)) = get_shape (PTensor shape)).
Proof.
  split_and!.
  - intros shape. exists (take 2 shape). split_and!; [done| |].
    + rewrite length_take. lia.
    + intros Hlt. apply take_ge. lia.
  - intros shape. exists (drop (length shape - 2) shape). split_and!; [done| |].
    + rewrite length_drop. lia.
    + intros Hlt. replace (length shape - 2)%nat with 0%nat by lia. done.
  - intros batch shape Hlen. simpl. f_equal. rewrite length_app.
    replace (length batch + length shape - 2)%nat
      with (length batch + (length shape - 2))%nat by lia.
    by rewrite drop_app_add.
Qed.

(** ** [format_args] *)

Lemma string_app_assoc (s t u : string) : (s +:+ t) +:+ u = s +:+ (t +:+ u).
Proof.
  induction s as [|c s IH]; [done|].
  change (String c ((s +:+ t) +:+ u) = String c (s +:+ (t +:+ u))).
  by f_equal.
Qed.

Lemma join_app (sep : string) (xs ys : list string) :
  xs ≠ [] → ys ≠ [] →
  join sep (xs ++ ys) = join sep xs +:+ sep +:+ join sep ys.
Proof.
  intros Hxs Hys. induction xs as [|x xs IH]; [done|].
  destruct xs as [|x' xs].
  - simpl. by destruct ys.
  - change (join sep ((x :: x' :: xs) ++ ys))
      with (x +:+ sep +:+ join sep ((x' :: xs) ++ ys)).
    rewrite IH by done.
    change (join sep (x :: x' :: xs)) with (x +:+ sep +:+ join sep (x' :: xs)).
    by rewrite !string_app_assoc.
Qed.

(** X6: [format_args] writes each entry as [key=value], a string value
    between single quotes and an int as it prints, and puts ", " between the
    entries and nowhere else: an empty mapping gives the empty string, and
    the entries of two non-empty mappings, one after the other, give the two
    results with ", " between them. *)
Theorem format_args_entries :
  format_args [] = "" ∧
  (∀ k s, format_args [(k, IStr s)] = k +:+ "='" +:+ s +:+ "'") ∧
  (∀ k z, format_args [(k, IInt z)] = k +:+ "=" +:+ pretty z) ∧
  (∀ xs ys, xs ≠ [] → ys ≠ [] →
     format_args (xs ++ ys) = format_args xs +:+ ", " +:+ format_args ys).
Proof.
  split_and!; [done..|].
  intros xs ys Hxs Hys. unfold format_args. rewrite fmap_app.
  apply join_app; by destruct xs, ys.
Qed.

Lemma format_args_entries_witness :
  format_args [("p", IInt 1); ("mode", IStr "fast"); ("limit", IInt (-2))]
  = "p=1, mode='fast', limit=-2".
Proof.
  change (format_args ([("p", IInt 1)]
                       ++ [("mode", IStr "fast"); ("limit", IInt (-2))])
          = "p=1, mode='fast', limit=-2").
  rewrite (proj2 (proj2 (proj2 format_args_entries))
             [("p", IInt 1)] [("mode", IStr "fast"); ("limit", IInt (-2))])
    by done.
  reflexivity.
Defined.

(** ** [add_targets] and [__init__] *)

Section registration.
Context `{Impl : DataProcessorImpl}.

Lemma add_targets_rejected (targets : list (string * string)) (self : DataProcessor) :
  (∀ k v, (k, v) ∈ targets → v ≠ default_data_name ∨ k ∈ data_fields self) →
  add_targets self targets = self.
Proof.
  induction targets as [|[k v] rest IH]; intros Hrej; simpl; [done|].
  rewrite decide_False.
  - apply IH. intros k' v' Hin. apply Hrej. by right.
  - intros [-> Hk]. destruct (Hrej k default_data_name); [by left|done..].
Qed.

Lemma add_targets_elem_of (targets : list (string * string)) (self : DataProcessor)
    (name : string) :
  name ∈ data_fields (add_targets self targets)
  ↔ name ∈ data_fields self ∨ (name, default_data_name) ∈ targets.
Proof.
  revert self. induction targets as [|[k v] rest IH]; intros self; simpl.
  { split; [by left|]. intros [?|Hin]; [done|]. by apply elem_of_nil in Hin. }
  case_decide as Hacc; rewrite IH; simpl.
  - destruct Hacc as [-> Hk]. rewrite elem_of_app, list_elem_of_singleton.
    rewrite elem_of_cons. split.
    + intros [[?| ->]|?]; [by left|right; by left|right; by right].
    + intros [?|[[= ->]|?]]; [left; by left|left; by right|by right].
  - rewrite elem_of_cons. split.
    + intros [?|?]; [by left|right; by right].
    + intros [?|[[= <- <-]|?]]; [by left| |by right].
      left. destruct (decide (name ∈ data_fields self)); [done|].
      by destruct Hacc.
Qed.

(** X7: registering the same mapping a second time changes nothing. *)
Theorem add_targets_idempotent (self : DataProcessor)
    (targets : list (string * string)) :
  add_targets (add_targets self targets) targets = add_targets self targets.
Proof.
  apply add_targets_rejected. intros k v Hin.
  destruct (decide (v = default_data_name)) as [->|Hne]; [|by left].
  right. apply add_targets_elem_of. by right.
Qed.

(** X8: registering two mappings one after the other is registering their
    entries in one mapping, the first mapping's entries first. *)
Theorem add_targets_app (self : DataProcessor) (first second : list (string * string)) :
  add_targets (add_targets self first) second = add_targets self (first ++ second).
Proof.
  revert self. induction first as [|[k v] rest IH]; intros self; simpl; [done|].
  by case_decide.
Qed.

(** X9: the stream names of a new processor: the default stream's name comes
    first, no name occurs twice, and a name is among them exactly when it is
    the default stream's name or an alias the mapping gives for it; the
    aliases of other streams are left out. *)
Theorem init_data_fields (p : Params) (targets : option (list (string * string))) :
  head (data_fields (init p targets)) = Some default_data_name ∧
  NoDup (data_fields (init p targets)) ∧
  params (init p targets) = p ∧
  (∀ name, name ∈ data_fields (init p targets)
     ↔ name = default_data_name
       ∨ (name, default_data_name) ∈ default [] targets).
Proof.
  unfold init. destruct targets as [t|]; simpl.
  - split_and!.
    + assert (Hpre : ∀ (t : list (string * string)) self x,
                head (data_fields self) = Some x →
                head (data_fields (add_targets self t)) = Some x).
      { clear. intros t. induction t as [|[k v] rest IH]; intros self x Hx; simpl;
          [done|].
        case_decide; apply IH; [|done]. simpl.
        by destruct (data_fields self). }
      by apply Hpre.
    + apply add_targets_NoDup. apply NoDup_singleton.
    + by rewrite add_targets_params.
    + intros name. rewrite add_targets_elem_of. simpl.
      by rewrite list_elem_of_singleton.
  - split_and!; [done|apply NoDup_singleton|done|].
    intros name. rewrite list_elem_of_singleton. split; [by left|].
    intros [?|Hin]; [done|]. by apply elem_of_nil in Hin.
Qed.

End registration.

(** ** What the two passes leave alone *)

Lemma writes_only_Returned (keys : string → Prop) : writes_only keys Returned.
Proof. by intros data key _. Qed.

Lemma writes_only_assign (keys : string → Prop) (key : string)
    (rhs : sample → result pyval) :
  keys key → writes_only keys (assign key rhs).
Proof.
  intros Hkey data key' Hkey'. unfold assign.
  destruct (rhs data); simpl; [|done].
  apply lookup_insert_ne. by intros ->.
Qed.

Lemma writes_only_seq (keys : string → Prop) (s1 s2 : stmt) :
  writes_only keys s1 → writes_only keys s2 → writes_only keys (seq_stmt s1 s2).
Proof.
  intros H1 H2 data key Hkey. specialize (H1 data key Hkey). unfold seq_stmt.
  destruct (s1 data) as [data'|e data']; simpl in *; [|done].
  by rewrite H2.
Qed.

Lemma writes_only_if_in (keys : string → Prop) (key : string) (s : stmt) :
  writes_only keys s → writes_only keys (if_in key s).
Proof.
  intros H data key' Hkey'. unfold if_in. case_decide; [by apply H|done].
Qed.

Lemma writes_only_for_each {A : Type} (keys : string → Prop) (xs : list A)
    (body : A → stmt) :
  (∀ x, x ∈ xs → writes_only keys (body x)) → writes_only keys (for_each xs body).
Proof.
  induction xs as [|x xs IH]; intros Hbody; simpl.
  - apply writes_only_Returned.
  - apply writes_only_seq.
    + apply Hbody. by left.
    + apply IH. intros y Hy. apply Hbody. by right.
Qed.

Lemma same_keys_if_in_assign (key : string) (rhs : sample → result pyval) :
  same_keys_if_in key (assign key rhs).
Proof.
  intros data Hin. unfold assign. destruct (rhs data); simpl; [|done].
  by apply dom_insert_lookup_L.
Qed.

Lemma same_keys_if_in_seq (key : string) (s1 s2 : stmt) :
  same_keys_if_in key s1 → same_keys_if_in key s2 →
  same_keys_if_in key (seq_stmt s1 s2).
Proof.
  intros H1 H2 data Hin. specialize (H1 data Hin). unfold seq_stmt.
  destruct (s1 data) as [data'|e data']; simpl in *; [|done].
  rewrite H2; [done|]. apply elem_of_dom. rewrite H1. by apply elem_of_dom.
Qed.

Lemma same_keys_if_in_for_each {A : Type} (key : string) (xs : list A)
    (body : A → stmt) :
  (∀ x, same_keys_if_in key (body x)) → same_keys_if_in key (for_each xs body).
Proof.
  intros Hbody. induction xs as [|x xs IH]; simpl.
  - by intros data _.
  - by apply same_keys_if_in_seq.
Qed.

Lemma same_keys_guarded (key : string) (s : stmt) :
  same_keys_if_in key s → same_keys (if_in key s).
Proof. intros H data. unfold if_in. case_decide; [by apply H|done]. Qed.

Lemma same_keys_seq (s1 s2 : stmt) :
  same_keys s1 → same_keys s2 → same_keys (seq_stmt s1 s2).
Proof.
  intros H1 H2 data. specialize (H1 data). unfold seq_stmt.
  destruct (s1 data) as [data'|e data']; simpl in *; [|done].
  by rewrite H2.
Qed.

Lemma same_keys_for_each {A : Type} (xs : list A) (body : A → stmt) :
  (∀ x, same_keys (body x)) → same_keys (for_each xs body).
Proof.
  intros Hbody. induction xs as [|x xs IH]; simpl.
  - by intros data.
  - by apply same_keys_seq.
Qed.

Lemma keeps_keys_assign (key : string) (rhs : sample → result pyval) :
  keeps_keys (assign key rhs).
Proof.
  intros data. unfold assign. destruct (rhs data); simpl; [|done].
  rewrite dom_insert. set_solver.
Qed.

Lemma keeps_keys_seq (s1 s2 : stmt) :
  keeps_keys s1 → keeps_keys s2 → keeps_keys (seq_stmt s1 s2).
Proof.
  intros H1 H2 data. specialize (H1 data). unfold seq_stmt.
  destruct (s1 data) as [data'|e data']; simpl in *; [|done].
  specialize (H2 data'). set_solver.
Qed.

Lemma keeps_keys_if_in (key : string) (s : stmt) :
  keeps_keys s → keeps_keys (if_in key s).
Proof. intros H data. unfold if_in. case_decide; [by apply H|done]. Qed.

Lemma keeps_keys_for_each {A : Type} (xs : list A) (body : A → stmt) :
  (∀ x, keeps_keys (body x)) → keeps_keys (for_each xs body).
Proof.
  intros Hbody. induction xs as [|x xs IH]; simpl.
  - by intros data.
  - by apply keeps_keys_seq.
Qed.

Section frames.
Context `{Impl : DataProcessorImpl}.

(** X10: [preprocess], whether it returns or raises, stores only under the
    stream names of [data_fields]: the image, the label columns and every
    other key hold what they held, and no key is added to the sample or
    removed from it. *)
Theorem preprocess_frame (self : DataProcessor) (data : sample) :
  (∀ key, key ∉ data_fields self →
     final_sample (preprocess self data) !! key = data !! key) ∧
  dom (final_sample (preprocess self data)) = dom data.
Proof.
  split.
  - intros key Hkey.
    apply (λ H, H data key Hkey : final_sample (preprocess self data) !! key = _).
    unfold preprocess. apply writes_only_seq.
    + unfold add_label_fields_to_data.
      destruct (label_fields (params self)); [|apply writes_only_Returned].
      apply writes_only_for_each. intros dn Hdn. apply writes_only_if_in.
      apply writes_only_for_each. intros f _. by apply writes_only_assign.
    + intros d k Hk. unfold with_image_shape.
      destruct (_ ≫= _) as [sh|e]; [|done].
      apply (writes_only_for_each (λ k, k ∈ data_fields self)); [|done].
      intros dn Hdn. apply writes_only_if_in. by apply writes_only_assign.
  - apply (λ H, H data : dom (final_sample (preprocess self data)) = _).
    unfold preprocess. apply same_keys_seq.
    + unfold add_label_fields_to_data.
      destruct (label_fields (params self)); [|by intros d].
      apply same_keys_for_each. intros dn. apply same_keys_guarded.
      apply same_keys_if_in_for_each. intros f. apply same_keys_if_in_assign.
    + intros d. unfold with_image_shape.
      destruct (_ ≫= _) as [sh|e]; [|done].
      apply same_keys_for_each. intros dn. apply same_keys_guarded.
      apply same_keys_if_in_assign.
Qed.

(** X11: [postprocess], whether it returns or raises, stores only under the
    stream names of [data_fields] and the names of the label fields: every
    other key, the image among them unless it bears such a name, holds what
    it held; and no key is removed from the sample. *)
Theorem postprocess_frame (self : DataProcessor) (data : sample) :
  (∀ key, key ∉ data_fields self →
     key ∉ default [] (label_fields (params self)) →
     final_sample (postprocess self data) !! key = data !! key) ∧
  dom data ⊆ dom (final_sample (postprocess self data)).
Proof.
  split.
  - intros key Hdn Hf.
    set (keys := λ k, k ∈ data_fields self
                      ∨ k ∈ default [] (label_fields (params self))).
    assert (Hkey : ¬ keys key) by (intros [?|?]; done).
    apply (λ H, H data key Hkey : final_sample (postprocess self data) !! key = _).
    intros d k Hk. unfold postprocess, with_image_shape.
    destruct (_ ≫= _) as [sh|e]; [|done].
    apply (writes_only_seq keys); [| |done].
    + apply writes_only_for_each. intros dn Hin. apply writes_only_if_in.
      apply writes_only_seq; apply writes_only_assign; by left.
    + unfold remove_label_fields_from_data, keys.
      destruct (label_fields (params self)) as [[|f0 fields]|];
        try apply writes_only_Returned.
      apply writes_only_for_each. intros dn Hin. apply writes_only_if_in.
      apply writes_only_seq; [|apply writes_only_assign; by left].
      apply writes_only_for_each. intros [j f] Hjf. apply writes_only_assign.
      right. apply enumerate_from_elem_of in Hjf as [_ Hjf].
      by eapply list_elem_of_lookup_2.
  - apply (λ H, H data : dom data ⊆ dom (final_sample (postprocess self data))).
    intros d. unfold postprocess, with_image_shape.
    destruct (_ ≫= _) as [sh|e]; [|done].
    apply keeps_keys_seq.
    + apply keeps_keys_for_each. intros dn. apply keeps_keys_if_in.
      apply keeps_keys_seq; apply keeps_keys_assign.
    + unfold remove_label_fields_from_data.
      destruct (label_fields (params self)) as [[|f0 fields]|]; try by intros d'.
      apply keeps_keys_for_each. intros dn. apply keeps_keys_if_in.
      apply keeps_keys_seq; [|apply keeps_keys_assign].
      apply keeps_keys_for_each. intros p. apply keeps_keys_assign.
Qed.

End frames.

(** ** Samples without a stream, a label column or an image *)

Section missing_keys.
Context `{Impl : DataProcessorImpl}.

(** X12: a sample that holds none of the processor's streams goes through
    both passes untouched, whatever the format and the label fields, its
    image being an array or a tensor: no label column is read, nothing is
    checked, converted or filtered. *)
Theorem no_stream_no_change (self : DataProcessor) (data : sample) (img : pyval)
    (image_shape : list nat) :
  Forall (λ dn, data !! dn = None) (data_fields self) →
  data !! "image" = Some img →
  get_shape img = Ok image_shape →
  preprocess self data = Returned data ∧ postprocess self data = Returned data.
Proof.
  intros Habs Himg Hshape. split.
  - unfold preprocess. rewrite (seq_stmt_Returned _ _ data data).
    + rewrite (with_image_shape_Ok _ _ _ _ Himg Hshape).
      by apply (for_each_absent _ (λ dn, assign dn _)).
    + rewrite add_label_fields_loop.
      by apply (for_each_absent _ (λ dn, for_each _ _)).
  - unfold postprocess. rewrite (with_image_shape_Ok _ _ _ _ Himg Hshape).
    rewrite (seq_stmt_Returned _ _ data data).
    + unfold remove_label_fields_from_data.
      destruct (label_fields (params self)) as [[|f0 fields]|]; [done| |done].
      by apply (for_each_absent _ (λ dn, seq_stmt _ _)).
    + by apply (for_each_absent _ (λ dn, seq_stmt _ _)).
Qed.

(** X13: a declared label field that the sample does not hold is an error:
    when the first stream of the sample has a length and the first label
    field is missing, [preprocess] raises [KeyError] for that field, before
    anything is stored. *)
Theorem preprocess_missing_label_column (self : DataProcessor)
    (f0 : string) (rest pre post : list string) (dn : string) (data : sample)
    (v : pyval) (n : nat) :
  label_fields (params self) = Some (f0 :: rest) →
  data_fields self = pre ++ dn :: post →
  Forall (λ d, data !! d = None) pre →
  data !! dn = Some v →
  py_len v = Ok n →
  data !! f0 = None →
  preprocess self data = Raised (KeyError f0) data.
Proof.
  intros Hlf Hsplit Habs Hv Hlen Hf0.
  unfold preprocess. apply seq_stmt_Raised.
  unfold add_label_fields_to_data. rewrite Hlf, Hsplit, for_each_app.
  rewrite (seq_stmt_Returned _ _ data data)
    by (by apply (for_each_absent _ (λ d, for_each _ _))).
  simpl. apply seq_stmt_Raised. rewrite (if_in_present _ _ _ _ Hv).
  simpl. apply seq_stmt_Raised. unfold add_field. apply assign_Err.
  unfold py_getitem. rewrite Hv. cbn [mbind result_bind]. rewrite Hlen.
  cbn [mbind result_bind]. by rewrite Hf0.
Qed.

(** X14: the image is read after the labels are attached: on a sample
    without the key "image" whose streams and label columns match,
    [preprocess] raises [KeyError] for "image" and leaves the sample with the
    label columns packed into the records of every stream;
    [postprocess] reads the image first and raises with the sample as it
    was. *)
Theorem preprocess_without_image (self : DataProcessor) (data : sample) :
  let fields := default [] (label_fields (params self)) in
  NoDup (data_fields self) →
  (∀ f, f ∈ fields → f ∉ data_fields self) →
  columns_match (data_fields self) fields data →
  data !! "image" = None →
  ∃ data1,
    preprocess self data = Raised (KeyError "image") data1 ∧
    (∀ dn, dn ∈ data_fields self →
       data1 !! dn = packed fields data <$> data !! dn) ∧
    (∀ key, key ∉ data_fields self → data1 !! key = data !! key) ∧
    postprocess self data = Raised (KeyError "image") data.
Proof.
  intros fields Hnd Hdisj Hwf Himg.
  destruct (add_loop_Ok (data_fields self) fields data Hnd Hdisj Hwf)
    as (data1 & Hadd & Hframe & Hpack).
  assert (Himg1 : data1 !! "image" = None).
  { destruct (decide ("image" ∈ data_fields self)) as [Hin|Hnin].
    - by rewrite Hpack, Himg.
    - by rewrite Hframe. }
  exists data1. split_and!; [|done..|].
  - unfold preprocess.
    rewrite (seq_stmt_Returned _ _ data data1)
      by (by rewrite add_label_fields_loop).
    unfold with_image_shape, py_getitem. by rewrite Himg1.
  - unfold postprocess, with_image_shape, py_getitem. by rewrite Himg.
Qed.

End missing_keys.

Lemma no_stream_no_change_witness :
  preprocess labelled_processor {[ "image" := array_image; "labels" := ints [1]%Z ]}
  = Returned {[ "image" := array_image; "labels" := ints [1]%Z ]}.
Proof.
  apply (no_stream_no_change labelled_processor _ array_image [100; 200]%nat);
    [|reflexivity..].
  by repeat constructor.
Defined.

Lemma preprocess_missing_label_column_witness :
  preprocess labelled_processor {[ "image" := array_image; "bboxes" := two_boxes ]}
  = Raised (KeyError "labels") {[ "image" := array_image; "bboxes" := two_boxes ]}.
Proof.
  by apply (preprocess_missing_label_column labelled_processor "labels" ["scores"]
              [] [] "bboxes" _ two_boxes 2).
Defined.

Lemma preprocess_without_image_witness :
  ∃ data1,
    preprocess labelled_processor blind_sample = Raised (KeyError "image") data1 ∧
    data1 !! "bboxes"
    = Some (PList [PList [PInt 1; PInt 2; PInt 3; PInt 4; PStr "a"; PInt 9];
                   PList [PInt 5; PInt 6; PInt 7; PInt 8; PStr "b"; PInt 8]]).
Proof.
  destruct (preprocess_without_image labelled_processor blind_sample)
    as (data1 & Hrun & Hpack & _).
  - apply init_NoDup.
  - intros f Hf Hin. apply list_elem_of_singleton in Hin. subst f.
    revert Hf. by_evaluation.
  - intros dn v Hdn Hv. apply list_elem_of_singleton in Hdn. subst dn.
    vm_compute in Hv. injection Hv as <-.
    exists [[PInt 1; PInt 2; PInt 3; PInt 4]; [PInt 5; PInt 6; PInt 7; PInt 8]].
    split; [reflexivity|].
    repeat constructor; eexists; split; reflexivity.
  - reflexivity.
  - exists data1. split; [exact Hrun|].
    rewrite (Hpack "bboxes") by (by left). reflexivity.
Defined.

(** ** Where the labels sit, and records too short to hold them *)

Lemma mapM_Err_Exists {A B : Type} (f : A → result B) (e : exn) (l : list A) :
  Forall (λ x, (∃ y, f x = Ok y) ∨ f x = Err e) l →
  Exists (λ x, f x = Err e) l →
  mapM f l = Err e.
Proof.
  induction 1 as [|x l Hx _ IH]; intros Hex.
  { by apply Exists_nil in Hex. }
  simpl. destruct Hx as [[y Hy]|Hx]; [|by rewrite Hx].
  rewrite Hy. cbn [mbind result_bind].
  apply Exists_cons in Hex as [Hbad|Hex]; [congruence|].
  by rewrite IH.
Qed.

Lemma py_index_list_outcome (r : list pyval) (i : Z) :
  (∃ x, py_index (PList r) i = Ok x) ∨ py_index (PList r) i = Err IndexError.
Proof.
  unfold py_index. destruct (norm_index (length r) i) as [j|]; [|by right].
  destruct (r !! j) as [x|]; [left; by exists x|by right].
Qed.

Lemma py_index_short (k : nat) (r : list pyval) :
  (length r < k)%nat →
  py_index (PList r) (- Z.of_nat k + Z.of_nat 0) = Err IndexError.
Proof.
  intros Hlt. unfold py_index, norm_index.
  rewrite (proj2 (Z.ltb_lt _ _)) by lia.
  rewrite (proj2 (Z.leb_gt _ _)) by lia. done.
Qed.

Section layout.
Context `{Impl : DataProcessorImpl}.

(** X15: what [add_label_fields_to_data] builds, record by record: on a
    sample whose streams and label columns match it returns, every stream
    keeps its number of records, and record [i] is then its coordinates as
    they were, followed by one value per declared label field, the value for
    the field at position [j] being entry [i] of that field's column. *)
Theorem add_label_fields_layout (self : DataProcessor) (data : sample) :
  let fields := default [] (label_fields (params self)) in
  NoDup (data_fields self) →
  (∀ f, f ∈ fields → f ∉ data_fields self) →
  columns_match (data_fields self) fields data →
  ∃ data1,
    add_label_fields_to_data self data = Returned data1 ∧
    ∀ dn recs, dn ∈ data_fields self → data !! dn = Some (stream_of recs) →
      ∃ rows,
        data1 !! dn = Some (stream_of rows) ∧
        length rows = length recs ∧
        ∀ i r, recs !! i = Some r →
          ∃ labels,
            rows !! i = Some (r ++ labels) ∧
            length labels = length fields ∧
            ∀ j f, fields !! j = Some f → labels !! j = column data f !! i.
Proof.
  intros fields Hnd Hdisj Hwf.
  destruct (add_loop_Ok (data_fields self) fields data Hnd Hdisj Hwf)
    as (data1 & Hadd & _ & Hpack).
  exists data1. split; [by rewrite add_label_fields_loop|].
  intros dn recs Hdn Hv.
  destruct (Hwf dn _ Hdn Hv) as (recs' & Heq & Hcols).
  apply stream_of_inj in Heq. subst recs'.
  pose proof (Forall_columns _ _ _ Hcols) as Hlens.
  exists (add_columns recs (column data <$> fields)). split_and!.
  - rewrite Hpack, Hv by done. simpl. unfold packed. by rewrite records_stream_of.
  - by apply length_add_columns.
  - intros i r Hr. exists ((λ col, col !!! i) <$> (column data <$> fields)).
    split_and!.
    + by apply add_columns_lookup.
    + by rewrite !length_fmap.
    + intros j f Hf. rewrite !list_lookup_fmap, Hf. simpl.
      symmetry. apply list_lookup_lookup_total_lt.
      eapply Forall_forall in Hlens.
      * rewrite Hlens. by eapply lookup_lt_Some.
      * apply list_elem_of_fmap. exists f. split; [done|].
        by eapply list_elem_of_lookup_2.
Qed.

(** X16: a record with fewer items than there are label fields cannot be
    unpacked: when the first stream of the sample holds such a record,
    [remove_label_fields_from_data] raises [IndexError] and stores
    nothing. *)
Theorem remove_label_fields_short_record (self : DataProcessor)
    (fields pre post : list string) (dn : string) (data : sample)
    (rows : list (list pyval)) :
  label_fields (params self) = Some fields →
  data_fields self = pre ++ dn :: post →
  Forall (λ d, data !! d = None) pre →
  data !! dn = Some (stream_of rows) →
  Exists (λ r, (length r < length fields)%nat) rows →
  remove_label_fields_from_data self data = Raised IndexError data.
Proof.
  intros Hlf Hsplit Habs Hv Hshort.
  unfold remove_label_fields_from_data. rewrite Hlf.
  destruct fields as [|f0 fields'] eqn:Hf.
  { apply Exists_exists in Hshort as (r & _ & Hlt). simpl in Hlt. lia. }
  rewrite <- Hf in *. rewrite Hsplit, for_each_app.
  rewrite (seq_stmt_Returned _ _ data data)
    by (by apply (for_each_absent _ (λ d, seq_stmt _ _))).
  simpl. apply seq_stmt_Raised. rewrite (if_in_present _ _ _ _ Hv).
  apply seq_stmt_Raised. rewrite Hf at 1. unfold enumerate. simpl.
  apply seq_stmt_Raised. unfold take_field. apply assign_Err.
  unfold py_getitem. rewrite Hv. unfold stream_of.
  cbn [mbind result_bind py_iter].
  rewrite (mapM_Err_Exists _ IndexError); [done| |].
  - apply Forall_fmap, Forall_forall. intros r _. apply py_index_list_outcome.
  - apply Exists_fmap. eapply Exists_impl; [exact Hshort|].
    intros r Hlt. simpl. by apply py_index_short.
Qed.

End layout.

Lemma add_label_fields_layout_witness :
  ∃ data1,
    add_label_fields_to_data labelled_processor matching_sample = Returned data1 ∧
    data1 !! "bboxes"
    = Some (PList [PList [PInt 1; PInt 2; PInt 3; PInt 4; PStr "a"; PInt 9];
                   PList [PInt 5; PInt 6; PInt 7; PInt 8; PStr "b"; PInt 8]]).
Proof.
  destruct (add_label_fields_layout labelled_processor matching_sample)
    as (data1 & Hrun & Hrows).
  - apply init_NoDup.
  - intros f Hf Hin. apply list_elem_of_singleton in Hin. subst f.
    revert Hf. by_evaluation.
  - intros dn v Hdn Hv. apply list_elem_of_singleton in Hdn. subst dn.
    vm_compute in Hv. injection Hv as <-.
    exists [[PInt 1; PInt 2; PInt 3; PInt 4]; [PInt 5; PInt 6; PInt 7; PInt 8]].
    split; [reflexivity|].
    repeat constructor; eexists; split; reflexivity.
  - exists data1. split; [exact Hrun|].
    assert (data1 = final_sample
              (add_label_fields_to_data labelled_processor matching_sample)) as ->
      by (by rewrite Hrun).
    reflexivity.
Defined.

Lemma remove_label_fields_short_record_witness :
  remove_label_fields_from_data labelled_processor short_record_sample
  = Raised IndexError short_record_sample.
Proof.
  apply (remove_label_fields_short_record labelled_processor ["labels"; "scores"]
           [] [] "bboxes" short_record_sample
           [[PInt 1; PInt 2; PInt 3]; [PInt 5]]); try reflexivity.
  - constructor.
  - apply Exists_cons. right. apply Exists_cons. left. simpl. lia.
Defined.

(** ** Conversions, and aliases *)

Section conversions.
Context `{Impl : DataProcessorImpl}.

(** A loop that stores [g] of every stream of the sample, when [g] returns
    for each of them. *)
Lemma store_loop_Ok (g : pyval → result pyval) (dns : list string)
    (out : string → pyval) (data : sample) :
  NoDup dns →
  (∀ dn v, dn ∈ dns → data !! dn = Some v → g v = Ok (out dn)) →
  ∃ data1,
    for_each dns (λ data_name,
      if_in data_name
        (assign data_name (λ data, stream ← py_getitem data data_name; g stream)))
      data
    = Returned data1 ∧
    (∀ key, key ∉ dns → data1 !! key = data !! key) ∧
    (∀ dn, dn ∈ dns → data1 !! dn = (λ _, out dn) <$> data !! dn).
Proof.
  revert data. induction dns as [|a dns IH]; intros data Hnd Hok; simpl.
  { exists data. split_and!; [done..|]. intros dn Hdn. by apply elem_of_nil in Hdn. }
  apply NoDup_cons in Hnd as [Ha Hnd].
  destruct (data !! a) as [v|] eqn:Hv.
  - set (data_a := <[a := out a]> data).
    rewrite (seq_stmt_Returned _ _ data data_a).
    2:{ rewrite (if_in_present _ _ _ _ Hv). apply assign_Ok.
        unfold py_getitem. rewrite Hv. cbn [mbind result_bind].
        apply (Hok a v); [by left|done]. }
    destruct (IH data_a) as (data1 & Hrun & Hframe & Hout); [done| |].
    { intros dn v' Hdn Hlook. unfold data_a in Hlook.
      rewrite lookup_insert_ne in Hlook by (by intros ->).
      apply (Hok dn v'); [by right|done]. }
    exists data1. split_and!; [done| |].
    + intros key [Hka Hkey]%not_elem_of_cons. rewrite Hframe by done.
      unfold data_a. by rewrite lookup_insert_ne.
    + intros dn [->|Hdn]%elem_of_cons.
      * rewrite Hframe by done. unfold data_a. by rewrite lookup_insert_eq, Hv.
      * rewrite Hout by done. unfold data_a.
        rewrite lookup_insert_ne; [done|]. by intros ->.
  - rewrite (seq_stmt_Returned _ _ data data) by (by apply if_in_absent).
    destruct (IH data) as (data1 & Hrun & Hframe & Hout); [done| |].
    { intros dn v' Hdn Hlook. apply (Hok dn v'); [by right|done]. }
    exists data1. split_and!; [done| |].
    + intros key [Hka Hkey]%not_elem_of_cons. by apply Hframe.
    + intros dn [->|Hdn]%elem_of_cons; [|by apply Hout].
      rewrite Hframe by done. by rewrite Hv.
Qed.

(** What such a loop has stored when it has returned. *)
Lemma store_loop_Returned (g : pyval → result pyval) (dns : list string)
    (data data1 : sample) :
  NoDup dns →
  for_each dns (λ data_name,
    if_in data_name
      (assign data_name (λ data, stream ← py_getitem data data_name; g stream)))
    data
  = Returned data1 →
  ∀ dn, dn ∈ dns →
    match data !! dn with
    | Some v => ∃ v', g v = Ok v' ∧ data1 !! dn = Some v'
    | None => data1 !! dn = None
    end.
Proof.
  revert data. induction dns as [|a dns IH]; intros data Hnd Hrun dn Hdn.
  { by apply elem_of_nil in Hdn. }
  apply NoDup_cons in Hnd as [Ha Hnd]. simpl in Hrun.
  assert (Hrest : ∀ d, for_each dns (λ data_name,
              if_in data_name
                (assign data_name
                   (λ data, stream ← py_getitem data data_name; g stream))) d
            = Returned data1 →
            ∀ key, key ∉ dns → data1 !! key = d !! key).
  { clear. intros d Hrun key Hkey.
    assert (Hw : writes_only (λ k, k ∈ dns)
              (for_each dns (λ data_name,
                 if_in data_name
                   (assign data_name
                      (λ data, stream ← py_getitem data data_name; g stream))))).
    { apply writes_only_for_each. intros x Hx. apply writes_only_if_in.
      by apply writes_only_assign. }
    specialize (Hw d key Hkey). by rewrite Hrun in Hw. }
  unfold seq_stmt in Hrun. destruct (data !! a) as [v|] eqn:Hv.
  - rewrite (if_in_present _ _ _ _ Hv) in Hrun. unfold assign in Hrun.
    unfold py_getitem in Hrun. rewrite Hv in Hrun.
    cbn [mbind result_bind] in Hrun.
    destruct (g v) as [v'|e] eqn:Hg; [|discriminate].
    apply elem_of_cons in Hdn as [->|Hdn].
    + rewrite Hv. exists v'. split; [done|].
      rewrite (Hrest _ Hrun) by done. by rewrite lookup_insert_eq.
    + specialize (IH _ Hnd Hrun dn Hdn).
      rewrite lookup_insert_ne in IH by (by intros ->). done.
  - rewrite (if_in_absent _ _ _ Hv) in Hrun.
    apply elem_of_cons in Hdn as [->|Hdn]; [|by apply (IH data)].
    rewrite Hv. by rewrite (Hrest _ Hrun).
Qed.

(** The loop of [remove_label_fields_from_data] undoes the loop of
    [add_label_fields_to_data]. *)
Lemma remove_restores_packed (self : DataProcessor) (data data1 : sample) :
  let fields := default [] (label_fields (params self)) in
  NoDup (data_fields self) →
  (∀ f, f ∈ fields → f ∉ data_fields self) →
  columns_match (data_fields self) fields data →
  (∀ key, key ∉ data_fields self → data1 !! key = data !! key) →
  (∀ dn, dn ∈ data_fields self → data1 !! dn = packed fields data <$> data !! dn) →
  remove_label_fields_from_data self data1 = Returned data.
Proof.
  intros fields Hnd Hdisj Hwf Hframe Hpack.
  assert (Hrestore : ∀ (data2 : sample),
    (∀ key, key ∉ data_fields self → data2 !! key = data1 !! key) →
    (∀ dn, dn ∈ data_fields self →
       data2 !! dn = stripped (length fields) <$> data1 !! dn) →
    data2 = data).
  { intros data2 Hframe2 Hstrip. apply map_eq. intros key.
    destruct (decide (key ∈ data_fields self)) as [Hin|Hnin].
    - rewrite Hstrip, Hpack by done.
      destruct (data !! key) as [v|] eqn:Hv; [|done].
      destruct (Hwf key v Hin Hv) as (recs & -> & Hcols). simpl.
      by rewrite stripped_packed.
    - by rewrite Hframe2, Hframe. }
  assert (Hnone : length fields = 0%nat →
            ∀ dn, dn ∈ data_fields self →
              data1 !! dn = stripped (length fields) <$> data1 !! dn).
  { intros Hlen dn Hdn. apply nil_length_inv in Hlen. rewrite Hlen.
    rewrite Hpack by done. destruct (data !! dn) as [v|] eqn:Hv; [|done].
    destruct (Hwf dn v Hdn Hv) as (recs & -> & _). simpl. rewrite Hlen.
    by rewrite packed_nil, stripped_0. }
  unfold remove_label_fields_from_data.
  assert (Hfields : label_fields (params self) = None ∧ fields = [] ∨
                    label_fields (params self) = Some fields).
  { unfold fields. destruct (label_fields (params self)); [by right|by left]. }
  destruct Hfields as [[-> Hnil]| ->].
  { f_equal. apply Hrestore; [done|]. apply Hnone. by rewrite Hnil. }
  destruct fields as [|f0 fields'] eqn:Hf.
  { f_equal. apply Hrestore; [done|]. by apply Hnone. }
  rewrite <- Hf in *.
  destruct (remove_loop_restores (data_fields self) fields data1)
    as (data2 & Hrun & Hframe2 & Hstrip); [rewrite Hf; simpl; lia|done..| |].
  { intros dn v Hdn Hv. rewrite Hpack in Hv by done.
    destruct (data !! dn) as [v0|] eqn:Hv0; [|done].
    destruct (Hwf dn v0 Hdn Hv0) as (recs & -> & Hcols).
    injection Hv as <-. exists recs.
    assert (Hsame : ∀ f, f ∈ fields → data1 !! f = data !! f).
    { intros f Hin. apply Hframe. by apply Hdisj. }
    split.
    - unfold packed. rewrite records_stream_of.
      by rewrite (column_fmap_ext fields data data1).
    - eapply Forall_impl; [apply Forall_and; split; [exact Hcols|]|].
      + apply Forall_forall. intros f' Hf'. exact Hf'.
      + simpl. intros f' [(col' & Hf' & Hlen') Hin]. exists col'.
        split; [|done]. by rewrite Hsame. }
  rewrite Hrun. f_equal. by apply Hrestore.
Qed.

End conversions.

Section conversion_round_trip.
Context `{Impl : DataProcessorImpl}.

(** X17: the round trip in any format.  On a sample whose streams and label
    columns match, let the conversion to the canonical format return a
    stream [canon] for every labelled stream, let [filter] keep [canon]
    whole, and let the conversion back return the labelled stream again.
    Then [preprocess] returns with every stream of the sample holding its
    [canon], and [postprocess] run on that returns the sample as it was
    before [preprocess]. *)
Theorem converted_round_trip (self : DataProcessor) (data : sample) (img : pyval)
    (image_shape : list nat) (canon : string → pyval) :
  let fields := default [] (label_fields (params self)) in
  NoDup (data_fields self) →
  (∀ f, f ∈ fields → f ∉ data_fields self) →
  columns_match (data_fields self) fields data →
  data !! "image" = Some img →
  get_shape img = Ok image_shape →
  (∀ dn v, dn ∈ data_fields self →
     final_sample (add_label_fields_to_data self data) !! dn = Some v →
     check_and_convert self v image_shape "to" = Ok (canon dn) ∧
     filter (canon dn) image_shape = Ok (canon dn) ∧
     check_and_convert self (canon dn) image_shape "from" = Ok v) →
  ∃ data1,
    preprocess self data = Returned data1 ∧
    (∀ dn, dn ∈ data_fields self → data1 !! dn = (λ _, canon dn) <$> data !! dn) ∧
    (∀ key, key ∉ data_fields self → data1 !! key = data !! key) ∧
    postprocess self data1 = Returned data.
Proof.
  intros fields Hnd Hdisj Hwf Himg Hshape Hok.
  destruct (add_loop_Ok (data_fields self) fields data Hnd Hdisj Hwf)
    as (data_l & Hadd & Hframe_l & Hpack).
  rewrite add_label_fields_loop in Hok. fold fields in Hok.
  rewrite Hadd in Hok. simpl in Hok.
  assert (Hnot_stream : "image" ∉ data_fields self).
  { intros Hin. destruct (Hwf "image" img Hin Himg) as (recs & -> & _).
    discriminate Hshape. }
  destruct (store_loop_Ok (λ v, check_and_convert self v image_shape "to")
              (data_fields self) canon data_l Hnd)
    as (data1 & Hconv & Hframe1 & Hcanon).
  { intros dn v Hdn Hv. by apply (Hok dn v). }
  assert (Hcanon' : ∀ dn, dn ∈ data_fields self →
            data1 !! dn = (λ _, canon dn) <$> data !! dn).
  { intros dn Hdn. rewrite Hcanon, Hpack by done. by destruct (data !! dn). }
  exists data1. split_and!; [|done| |].
  - unfold preprocess.
    rewrite (seq_stmt_Returned _ _ data data_l)
      by (by rewrite add_label_fields_loop).
    rewrite (with_image_shape_Ok _ _ img image_shape); [done| |done].
    by rewrite Hframe_l.
  - intros key Hkey. by rewrite Hframe1, Hframe_l.
  - unfold postprocess.
    rewrite (with_image_shape_Ok _ _ img image_shape); [| |done].
    2:{ by rewrite Hframe1, Hframe_l. }
    destruct (filter_loop_Ok self (data_fields self) image_shape
                (λ dn, default (PInt 0) (data_l !! dn)) data1 Hnd)
      as (data2 & Hfilter & Hframe2 & Hback).
    { intros dn v Hdn Hv. rewrite Hcanon in Hv by done.
      destruct (data_l !! dn) as [vl|] eqn:Hvl; [|done].
      injection Hv as <-. destruct (Hok dn vl Hdn Hvl) as (_ & Hkeep & Hfrom).
      exists (canon dn). by split. }
    assert (data2 = data_l) as ->.
    { apply map_eq. intros key.
      destruct (decide (key ∈ data_fields self)) as [Hin|Hnin].
      - rewrite Hback, Hcanon by done. by destruct (data_l !! key).
      - by rewrite Hframe2, Hframe1. }
    rewrite (seq_stmt_Returned _ _ _ _ Hfilter).
    by apply remove_restores_packed.
Qed.

(** X18: an alias is treated as the stream it stands for.  On a sample whose
    streams and label columns match, two stream names of the processor that
    hold the same records before [preprocess] hold the same records after
    it, whatever the format. *)
Theorem preprocess_alias_same (self : DataProcessor) (data data1 : sample)
    (dn1 dn2 : string) :
  let fields := default [] (label_fields (params self)) in
  NoDup (data_fields self) →
  (∀ f, f ∈ fields → f ∉ data_fields self) →
  columns_match (data_fields self) fields data →
  preprocess self data = Returned data1 →
  dn1 ∈ data_fields self → dn2 ∈ data_fields self →
  data !! dn1 = data !! dn2 →
  data1 !! dn1 = data1 !! dn2.
Proof.
  intros fields Hnd Hdisj Hwf Hrun Hdn1 Hdn2 Hsame.
  destruct (add_loop_Ok (data_fields self) fields data Hnd Hdisj Hwf)
    as (data_l & Hadd & _ & Hpack).
  unfold preprocess in Hrun.
  rewrite (seq_stmt_Returned _ _ data data_l) in Hrun
    by (by rewrite add_label_fields_loop).
  unfold with_image_shape in Hrun.
  destruct (_ ≫= _) as [image_shape|e]; [|discriminate].
  pose proof (store_loop_Returned
                (λ v, check_and_convert self v image_shape "to")
                (data_fields self) data_l data1 Hnd Hrun) as Hstored.
  pose proof (Hstored dn1 Hdn1) as H1. pose proof (Hstored dn2 Hdn2) as H2.
  rewrite Hpack in H1, H2 by done. rewrite Hsame in H1.
  destruct (data !! dn2) as [v|]; simpl in *; [|congruence].
  destruct H1 as (v1 & Hg1 & ->). destruct H2 as (v2 & Hg2 & ->). congruence.
Qed.

End conversion_round_trip.

Lemma converted_round_trip_witness :
  ∃ data1,
    preprocess shifting_processor twin_sample = Returned data1 ∧
    data1 !! "more"
    = Some (PList [PList [PInt 101; PInt 2; PInt 3; PInt 4; PStr "a"];
                   PList [PInt 105; PInt 6; PInt 7; PInt 8; PStr "b"]]) ∧
    postprocess shifting_processor data1 = Returned twin_sample.
Proof.
  destruct (converted_round_trip shifting_processor twin_sample array_image
              [100; 200]%nat
              (λ _, PList [PList [PInt 101; PInt 2; PInt 3; PInt 4; PStr "a"];
                           PList [PInt 105; PInt 6; PInt 7; PInt 8; PStr "b"]]))
    as (data1 & Hpre & Hcanon & _ & Hpost).
  - apply init_NoDup.
  - intros f Hf Hin. apply list_elem_of_singleton in Hf. subst f.
    revert Hin. by_evaluation.
  - intros dn v Hdn Hv. change (dn ∈ ["bboxes"; "more"]) in Hdn.
    apply elem_of_cons in Hdn as [->|Hdn];
      [|apply list_elem_of_singleton in Hdn; subst dn];
      vm_compute in Hv; injection Hv as <-;
      exists [[PInt 1; PInt 2; PInt 3; PInt 4]; [PInt 5; PInt 6; PInt 7; PInt 8]];
      (split; [reflexivity|]); repeat constructor; eexists; split; reflexivity.
  - reflexivity.
  - reflexivity.
  - intros dn v Hdn Hv. change (dn ∈ ["bboxes"; "more"]) in Hdn.
    apply elem_of_cons in Hdn as [->|Hdn];
      [|apply list_elem_of_singleton in Hdn; subst dn];
      vm_compute in Hv; injection Hv as <-; split_and!; reflexivity.
  - exists data1. split; [exact Hpre|]. split; [|exact Hpost].
    rewrite (Hcanon "more") by by_evaluation. reflexivity.
Defined.

Lemma preprocess_alias_same_witness :
  final_sample (preprocess shifting_processor twin_sample) !! "bboxes"
  = final_sample (preprocess shifting_processor twin_sample) !! "more".
Proof.
  apply (preprocess_alias_same shifting_processor twin_sample).
  - apply init_NoDup.
  - intros f Hf Hin. apply list_elem_of_singleton in Hf. subst f.
    revert Hin. by_evaluation.
  - intros dn v Hdn Hv. change (dn ∈ ["bboxes"; "more"]) in Hdn.
    apply elem_of_cons in Hdn as [->|Hdn];
      [|apply list_elem_of_singleton in Hdn; subst dn];
      vm_compute in Hv; injection Hv as <-;
      exists [[PInt 1; PInt 2; PInt 3; PInt 4]; [PInt 5; PInt 6; PInt 7; PInt 8]];
      (split; [reflexivity|]); repeat constructor; eexists; split; reflexivity.
  - reflexivity.
  - by_evaluation.
  - by_evaluation.
  - reflexivity.
Defined.
